(** * migrate_db.py: de-identifying migration of a PostgreSQL database

    A shallow embedding of [src/code/migrate_db.py] and the properties of
    its row redactor ([redact]), its subprocess wrapper ([call_process])
    and its orchestration ([migrate_db]).

    Python values are an inductive type, tuples and lists are Rocq lists,
    a Python [int] used as an index is a [Z] (negative indices count from
    the end, as in Python), exceptions are a constructor of [result], and
    the effects of the script (printing, spawning processes, database
    sessions) are threaded through an explicit [state]. *)

From Stdlib Require Import ZArith Lia.
From Stdlib.Strings Require Import Byte Ascii.
From stdpp Require Import base list strings.

Local Open Scope Z_scope.

(** ** Python values and exceptions *)

(** The column values a psycopg2 row may carry. *)
Inductive value : Type :=
  | VNone
  | VBool (b : bool)
  | VInt (n : Z)
  | VStr (s : string).

Definition value_eqb (a b : value) : bool :=
  match a, b with
  | VNone, VNone => true
  | VBool x, VBool y => Bool.eqb x y
  | VInt x, VInt y => Z.eqb x y
  | VStr x, VStr y => String.eqb x y
  | _, _ => false
  end.

(** A SQL table row: the tuple psycopg2's [fetchall] returns. *)
Abbreviation sqlrow := (list value).

(** The exceptions the script can raise. [SystemExit] is what [sys.exit]
    raises; [DatabaseError] stands for every [psycopg2.Error]. *)
Inductive exn : Type :=
  | IndexError
  | UnboundLocalError (name : string)
  | ValueError
  | TypeError
  | OSError
  | DatabaseError
  | SystemExit (code : Z).

Inductive result (A : Type) : Type :=
  | Ok (a : A)
  | Raise (e : exn).
Arguments Ok {A} a.
Arguments Raise {A} e.

Definition is_ok {A} (r : result A) : bool :=
  match r with Ok _ => true | Raise _ => false end.

(** Sequencing of calls that may raise. *)
#[global] Instance result_ret : MRet result := @Ok.
#[global] Instance result_bind : MBind result := fun A B f r =>
  match r with
  | Ok a => f a
  | Raise e => Raise e
  end.

(** ** The row redactor *)

Module Redactor.

(** The string literal ['REDACTED']. *)
Definition REDACTED : value := VStr "REDACTED".

(** Python's resolution of a list index [i] against a list of length
    [len]: [0 <= i < len] is itself, [-len <= i < 0] counts from the end,
    anything else is out of range. *)
Definition py_index (len : nat) (i : Z) : option nat :=
  if (0 <=? i) && (i <? Z.of_nat len) then Some (Z.to_nat i)
  else if (- Z.of_nat len <=? i) && (i <? 0) then Some (Z.to_nat (Z.of_nat len + i))
  else None.

(** [l[i] = v] on a Python list: [IndexError] when [i] is out of range. *)
Definition list_setitem (l : list value) (i : Z) (v : value) : result (list value) :=
  match py_index (length l) i with
  | Some k => Ok (<[k := v]> l)
  | None => Raise IndexError
  end.

(** [for i in columns: new_row[i] = 'REDACTED'] *)
Fixpoint redact_loop (new_row : list value) (columns : list Z) : result (list value) :=
  match columns with
  | [] => Ok new_row
  | i :: rest =>
      match list_setitem new_row i REDACTED with
      | Ok new_row' => redact_loop new_row' rest
      | Raise e => Raise e
      end
  end.

(** [redact(row, *columns)]: [list(row)] and [tuple(new_row)] copy the
    elements, so on the level of element sequences they are the identity. *)
Definition redact (row : sqlrow) (columns : list Z) : result sqlrow :=
  let new_row := row in
  match redact_loop new_row columns with
  | Ok new_row => Ok new_row
  | Raise e => Raise e
  end.

(** *** The same function over an object store

    To speak about mutation the sequence objects are placed in a store:
    a location holds a tuple (immutable) or a list (mutable). [redact]
    allocates the list [list(row)], assigns into it, and allocates the
    tuple it returns. *)

Inductive obj : Type :=
  | OTuple (elems : list value)
  | OList (elems : list value).

Definition elems_of (o : obj) : list value :=
  match o with OTuple l => l | OList l => l end.

Abbreviation loc := nat.
Abbreviation store := (list obj).

Definition alloc (h : store) (o : obj) : store * loc := (h ++ [o], length h).

(** [x[i] = v] for the object at [x]: tuples do not support assignment
    (the script never tries); lists follow [list_setitem]. *)
Definition store_setitem (h : store) (x : loc) (i : Z) (v : value) : result store :=
  match h !! x with
  | Some (OList l) =>
      match list_setitem l i v with
      | Ok l' => Ok (<[x := OList l']> h)
      | Raise e => Raise e
      end
  | _ => Raise TypeError
  end.

Fixpoint store_redact_loop (h : store) (new_row : loc) (columns : list Z) : store * result unit :=
  match columns with
  | [] => (h, Ok tt)
  | i :: rest =>
      match store_setitem h new_row i REDACTED with
      | Ok h' => store_redact_loop h' new_row rest
      | Raise e => (h, Raise e)
      end
  end.

Definition store_redact (h : store) (row : loc) (columns : list Z) : store * result loc :=
  match h !! row with
  | None => (h, Raise TypeError)
  | Some o =>
      let '(h1, new_row) := alloc h (OList (elems_of o)) in
      match store_redact_loop h1 new_row columns with
      | (h2, Raise e) => (h2, Raise e)
      | (h2, Ok _) =>
          match h2 !! new_row with
          | Some o' => let '(h3, t) := alloc h2 (OTuple (elems_of o')) in (h3, Ok t)
          | None => (h2, Raise TypeError)
          end
      end
  end.

End Redactor.

Import Redactor.

(** ** The environment of the script *)

(** What [Popen(...).communicate()] yields once the child has ended: its
    exit status and the bytes of its two output streams. *)
Record completed := {
  returncode : Z;
  out_stream : list byte;
  err_stream : list byte
}.

(** The arguments of [psycopg2.connect]. *)
Record conn_params := {
  cp_host : option string;
  cp_port : option string;
  cp_user : option string;
  cp_password : option string;
  cp_database : string
}.

(** A statement sent through a cursor: the SQL text and the bound
    parameters. *)
Record stmt := { sql_text : string; sql_params : sqlrow }.

(** Everything outside the script that decides how a run goes. [None]
    and [false] stand for the failure of the call. *)
Record world := {
  (** [shlex.split]; [None] is its [ValueError] *)
  shlex_split : string -> option (list string);
  (** spawn [argv] after the earlier spawns and wait for it; [None] is
      the [OSError] of a command that cannot be started *)
  popen_communicate : list (list string) -> list string -> option completed;
  (** the [[PostgreSQL]] section of [../config.ini] *)
  HOST : option string;
  PORT : option string;
  USER : option string;
  PASSWORD : option string;
  (** whether the server accepts the connection *)
  pg_connect : conn_params -> bool;
  (** the rows a query returns on a database; [None] is a read error *)
  pg_select : string -> string -> option (list sqlrow);
  (** whether a database accepts a statement after the pending ones *)
  pg_insert : string -> list stmt -> stmt -> bool;
  (** whether a database accepts the commit of the pending statements *)
  pg_commit : string -> list stmt -> bool
}.

(** ** The state of a run *)

(** What [print] was given. *)
Inductive output : Type :=
  | OutStr (s : string)
  | OutBytes (b : list byte).

(** A psycopg2 connection: the statements of the open transaction, the
    statements made durable by a commit, how often the transaction was
    committed and rolled back, and whether [close] was called. *)
Record session := {
  s_database : string;
  s_pending : list stmt;
  s_committed : list stmt;
  s_commits : nat;
  s_rollbacks : nat;
  s_closed : bool
}.

Record state := {
  stdout : list output;
  spawned : list (list string);
  sessions : list session
}.

Definition init_state : state :=
  {| stdout := []; spawned := []; sessions := [] |}.

(** ** The monad of the script: state and exceptions *)

Definition Py (A : Type) : Type := state -> result A * state.

Definition py_ret {A} (a : A) : Py A := fun s => (Ok a, s).

Definition py_bind {A B} (f : A -> Py B) (m : Py A) : Py B :=
  fun s =>
    match m s with
    | (Ok a, s') => f a s'
    | (Raise e, s') => (Raise e, s')
    end.

#[global] Instance Py_ret : MRet Py := @py_ret.
#[global] Instance Py_bind : MBind Py := @py_bind.

Definition raise {A} (e : exn) : Py A := fun s => (Raise e, s).

(** [print(x)] *)
Definition print (x : output) : Py unit :=
  fun s => (Ok tt, {| stdout := stdout s ++ [x]; spawned := spawned s; sessions := sessions s |}).

(** [sys.exit(code)] *)
Definition sys_exit {A} (code : Z) : Py A := raise (SystemExit code).

(** [for x in xs: vars = body(vars, x)], with the loop-carried local
    variables threaded through [vars]. *)
Fixpoint for_each {A V} (xs : list A) (body : V -> A -> Py V) (vars : V) : Py V :=
  match xs with
  | [] => mret vars
  | x :: rest => vars' ← body vars x; for_each rest body vars'
  end.

(** ** The database driver (psycopg2) *)

(** A connection object is named by its index in [sessions]; a cursor
    shares the connection it was made from. *)
Abbreviation conn := nat.

Definition set_sessions (l : list session) (s : state) : state :=
  {| stdout := stdout s; spawned := spawned s; sessions := l |}.

Definition with_session {A} (c : conn) (f : session -> result A * session) : Py A :=
  fun s =>
    match sessions s !! c with
    | None => (Raise DatabaseError, s)
    | Some ss =>
        if s_closed ss then (Raise DatabaseError, s)
        else let '(r, ss') := f ss in (r, set_sessions (<[c := ss']> (sessions s)) s)
    end.

Definition new_session (database : string) : session :=
  {| s_database := database; s_pending := []; s_committed := [];
     s_commits := 0; s_rollbacks := 0; s_closed := false |}.

(** [psycopg2.connect(...)] *)
Definition psycopg2_connect (w : world) (p : conn_params) : Py conn :=
  fun s =>
    if pg_connect w p
    then (Ok (length (sessions s)),
          set_sessions (sessions s ++ [new_session (cp_database p)]) s)
    else (Raise DatabaseError, s).

(** [conn.cursor()] *)
Definition cursor (c : conn) : Py conn := mret c.

(** [cursor.execute(query)] followed by [cursor.fetchall()], for a query
    that returns rows. *)
Definition execute_fetchall (w : world) (cur : conn) (query : string) : Py (list sqlrow) :=
  with_session cur (fun ss =>
    match pg_select w (s_database ss) query with
    | Some rows => (Ok rows, ss)
    | None => (Raise DatabaseError, ss)
    end).

(** [cursor.execute(cmd, params)] for a statement with bound parameters:
    it joins the open transaction of the connection. *)
Definition execute (w : world) (cur : conn) (cmd : string) (params : sqlrow) : Py unit :=
  with_session cur (fun ss =>
    let st := {| sql_text := cmd; sql_params := params |} in
    if pg_insert w (s_database ss) (s_pending ss) st
    then (Ok tt,
          {| s_database := s_database ss; s_pending := s_pending ss ++ [st];
             s_committed := s_committed ss; s_commits := s_commits ss;
             s_rollbacks := s_rollbacks ss; s_closed := s_closed ss |})
    else (Raise DatabaseError, ss)).

(** [conn.commit()]: the pending statements become durable. *)
Definition commit (w : world) (c : conn) : Py unit :=
  with_session c (fun ss =>
    if pg_commit w (s_database ss) (s_pending ss)
    then (Ok tt,
          {| s_database := s_database ss; s_pending := [];
             s_committed := s_committed ss ++ s_pending ss;
             s_commits := S (s_commits ss);
             s_rollbacks := s_rollbacks ss; s_closed := s_closed ss |})
    else (Raise DatabaseError, ss)).

(** [conn.rollback()]: the pending statements are dropped. The script
    has no call of it. *)
Definition rollback (c : conn) : Py unit :=
  with_session c (fun ss =>
    (Ok tt,
     {| s_database := s_database ss; s_pending := [];
        s_committed := s_committed ss; s_commits := s_commits ss;
        s_rollbacks := S (s_rollbacks ss); s_closed := s_closed ss |})).

(** [conn.close()]: work that was not committed is discarded. *)
Definition close (c : conn) : Py unit :=
  with_session c (fun ss =>
    (Ok tt,
     {| s_database := s_database ss; s_pending := [];
        s_committed := s_committed ss; s_commits := s_commits ss;
        s_rollbacks := s_rollbacks ss; s_closed := true |})).

(** ** The script *)

(** Truth value of a [bytes] object: non-empty. *)
Definition bytes_truthy (b : list byte) : bool :=
  match b with [] => false | _ :: _ => true end.

(** [call_process(cmd)], lines 30-45. *)
Definition call_process (w : world) (cmd : string) : Py bool :=
  cmds ← (fun s => match shlex_split w cmd with
                   | Some l => (Ok l, s)
                   | None => (Raise ValueError, s)
                   end);
  p ← (fun s => match popen_communicate w (spawned s) cmds with
                | Some p =>
                    (Ok p, {| stdout := stdout s; spawned := spawned s ++ [cmds];
                              sessions := sessions s |})
                | None => (Raise OSError, s)
                end);
  let '(out, err) := (out_stream p, err_stream p) in
  if bytes_truthy err then
    print (OutBytes err);;
    mret false
  else mret true.

(** [kwargs.get(key, default)] *)
Fixpoint kwargs_get (kwargs : list (string * string)) (key : string)
    (default : option string) : option string :=
  match kwargs with
  | [] => default
  | (k, v) :: rest => if String.eqb k key then Some v else kwargs_get rest key default
  end.

(** [connect_to_psql(db_name, **kwargs)], lines 47-64. *)
Definition connect_to_psql (w : world) (db_name : string)
    (kwargs : list (string * string)) : Py conn :=
  conn ← psycopg2_connect w
    {| cp_host := kwargs_get kwargs "host" (HOST w);
       cp_port := kwargs_get kwargs "port" (PORT w);
       cp_user := kwargs_get kwargs "user" (USER w);
       cp_password := kwargs_get kwargs "password" (PASSWORD w);
       cp_database := db_name |};
  mret conn.

(** [sep.join(l)] *)
Fixpoint str_join (sep : string) (l : list string) : string :=
  match l with
  | [] => ""
  | [x] => x
  | x :: rest => x +:+ sep +:+ str_join sep rest
  end.

(** ['INSERT INTO {} VALUES ({})'.format(db, ', '.join(['%s'] * n))] *)
Definition insert_sql (db : string) (n : nat) : string :=
  "INSERT INTO " +:+ db +:+ " VALUES (" +:+ str_join ", " (replicate n "%s") +:+ ")".

(** Lift the result of a pure call into the script. *)
Definition lift {A} (r : result A) : Py A := fun s => (r, s).

(** The de-identification step of the inner loop, lines 127-133: the
    two [if] statements that may assign [new_row]. [new_row] is the
    local variable of that name, [None] while it is unbound. *)
Definition deidentify (db : string) (new_row : option sqlrow) (row : sqlrow)
    : result (option sqlrow) :=
  new_row ← (if String.eqb db "account"
             then r ← redact row [1]; mret (Some r)
             else mret new_row);
  new_row ← (if String.eqb db "address"
             then r ← redact row [2]; mret (Some r)
             else mret new_row);
  mret new_row.

(** The body of the inner loop, lines 126-137. Reading the unbound
    [new_row] in line 136 raises [UnboundLocalError]. *)
Definition migrate_row (w : world) (staging_cursor : conn) (db : string)
    (new_row : option sqlrow) (row : sqlrow) : Py (option sqlrow) :=
  new_row ← lift (deidentify db new_row row);
  match new_row with
  | None => raise (UnboundLocalError "new_row")
  | Some nr =>
      let cmd := insert_sql db (length nr) in
      execute w staging_cursor cmd nr;;
      mret (Some nr)
  end.

(** The body of the outer loop, lines 124-137. *)
Definition migrate_table (w : world) (prod_cursor staging_cursor : conn)
    (new_row : option sqlrow) (db : string) : Py (option sqlrow) :=
  rows ← execute_fetchall w prod_cursor ("SELECT * FROM " +:+ db);
  for_each rows (migrate_row w staging_cursor db) new_row.

Definition tables : list string := ["account"; "address"; "statement"].

(** [migrate_db(db_in, db_out)], lines 84-143. *)
Definition migrate_db (w : world) (db_in db_out : string) : Py unit :=
  created ← call_process w ("createdb " +:+ db_out);
  (if negb created then
     print (OutStr ("Error creating database " +:+ db_out +:+ ", exiting..."));;
     sys_exit 1
   else mret tt);;
  dumped ← call_process w
    ("pg_dump --schema-only --format tar -f ../data/schemas.db " +:+ db_in);
  (if negb dumped then
     print (OutStr ("Error dumping schemas for " +:+ db_in +:+ ", exiting..."));;
     sys_exit 1
   else mret tt);;
  restored ← call_process w
    ("pg_restore -d " +:+ db_out +:+ " --schema-only ../data/schemas.db");
  (if negb restored then
     print (OutStr ("Error loading schemas for " +:+ db_out +:+ ", exiting..."));;
     sys_exit 1
   else mret tt);;
  staging_conn ← connect_to_psql w db_out [];
  staging_cursor ← cursor staging_conn;
  prod_conn ← connect_to_psql w db_in [];
  prod_cursor ← cursor prod_conn;
  for_each tables (migrate_table w prod_cursor staging_cursor) None;;
  commit w staging_conn;;
  close staging_conn;;
  close prod_conn.

(** ** Concrete environments

    Small environments on which the script is run in the examples below:
    a whitespace splitter for [shlex.split], child processes given by
    their result, the three tables given by their rows. *)

Fixpoint words_from (word : string) (s : string) : list string :=
  match s with
  | EmptyString => if String.eqb word "" then [] else [word]
  | String c rest =>
      if Ascii.eqb c " "%char
      then (if String.eqb word "" then words_from "" rest
            else word :: words_from "" rest)
      else words_from (word +:+ String c "") rest
  end.

Definition words (s : string) : list string := words_from "" s.

Definition quiet (code : Z) : completed :=
  {| returncode := code; out_stream := []; err_stream := [] |}.

Definition noisy (code : Z) : completed :=
  {| returncode := code; out_stream := []; err_stream := ["x"%byte] |}.

Definition mk_world (run : list string -> completed)
    (account address statement : list sqlrow) (accept : stmt -> bool) : world :=
  {| shlex_split := fun cmd => Some (words cmd);
     popen_communicate := fun _ argv => Some (run argv);
     HOST := Some "localhost"; PORT := Some "5432";
     USER := Some "postgres"; PASSWORD := None;
     pg_connect := fun _ => true;
     pg_select := fun _ query =>
       if String.eqb query "SELECT * FROM account" then Some account
       else if String.eqb query "SELECT * FROM address" then Some address
       else if String.eqb query "SELECT * FROM statement" then Some statement
       else None;
     pg_insert := fun _ _ st => accept st;
     pg_commit := fun _ _ => true |}.

Definition account_rows : list sqlrow := [[VInt 1; VStr "Alice Smith"; VStr "a@x.com"]].
Definition address_rows : list sqlrow := [[VInt 7; VInt 42; VStr "123 Main St"]].
Definition statement_rows : list sqlrow := [[VInt 100; VInt 1; VStr "2019-01"]].

(** Every tool succeeds silently and the database accepts every row. *)
Definition world_fine : world :=
  mk_world (fun _ => quiet 0) account_rows address_rows statement_rows (fun _ => true).

(** The staging database rejects a row for [statement] whose third
    column is not what that table holds. *)
Definition world_rejecting : world :=
  mk_world (fun _ => quiet 0) account_rows address_rows statement_rows
    (fun st => negb (String.eqb (sql_text st) (insert_sql "statement" 3))).

(** The [account] table has a single column. *)
Definition world_narrow : world :=
  mk_world (fun _ => quiet 0) [[VInt 1]] address_rows statement_rows (fun _ => true).

(** Only the [statement] table has rows. *)
Definition world_statement_only : world :=
  mk_world (fun _ => quiet 0) [] [] statement_rows (fun _ => true).



(** [createdb] ends with status 1 and an empty error stream; every other
    tool ends with status 0 after writing to its error stream. *)
Definition world_odd_tools : world :=
  mk_world (fun argv => match argv with
                        | cmd :: _ => if String.eqb cmd "createdb" then quiet 1 else noisy 0
                        | [] => quiet 0
                        end)
    account_rows address_rows statement_rows (fun _ => true).

(** ** Observations on a final state *)

(** The parameter rows of the statements in [l] that insert into table
    [t]. *)
Fixpoint rows_into (t : string) (l : list stmt) : list sqlrow :=
  match l with
  | [] => []
  | st :: rest =>
      if String.eqb (sql_text st) (insert_sql t (length (sql_params st)))
      then sql_params st :: rows_into t rest
      else rows_into t rest
  end.

(** The tuple a call of [store_redact] returned, read back from the
    store it left. *)
Definition returned (x : store * result loc) : result (list value) :=
  match x with
  | (h, Ok t) =>
      match h !! t with
      | Some (OTuple l) => Ok l
      | _ => Raise TypeError
      end
  | (_, Raise e) => Raise e
  end.

(** Whether some position of [columns] resolves to index [i] of a
    sequence of length [len]. *)
Definition hits (len : nat) (columns : list Z) (i : nat) : bool :=
  existsb (fun p => match py_index len p with
                    | Some k => Nat.eqb k i
                    | None => false
                    end) columns.

(** ** The course of the copy loops

    What the two loops of [migrate_db] do, told as a relation between the
    value of [new_row] on entry, the rows read, the statements that
    joined the staging transaction, and how the loop ended. *)

Definition insert_stmt (db : string) (nr : sqlrow) : stmt :=
  {| sql_text := insert_sql db (length nr); sql_params := nr |}.

Definition add_pending (added : list stmt) (ss : session) : session :=
  {| s_database := s_database ss; s_pending := s_pending ss ++ added;
     s_committed := s_committed ss; s_commits := s_commits ss;
     s_rollbacks := s_rollbacks ss; s_closed := s_closed ss |}.

(** The inner loop over the rows of table [db]. *)
Inductive copies (db : string)
    : option sqlrow -> list sqlrow -> list stmt -> result (option sqlrow) -> Prop :=
  | copies_nil new_row :
      copies db new_row [] [] (Ok new_row)
  | copies_cons new_row row rows nr added res :
      deidentify db new_row row = Ok (Some nr) ->
      copies db (Some nr) rows added res ->
      copies db new_row (row :: rows) (insert_stmt db nr :: added) res
  | copies_redact_error new_row row rows e :
      deidentify db new_row row = Raise e ->
      copies db new_row (row :: rows) [] (Raise e)
  | copies_unbound new_row row rows :
      deidentify db new_row row = Ok None ->
      copies db new_row (row :: rows) [] (Raise (UnboundLocalError "new_row"))
  | copies_rejected new_row row rows nr :
      deidentify db new_row row = Ok (Some nr) ->
      copies db new_row (row :: rows) [] (Raise DatabaseError).

(** The outer loop over the tables [dbs], reading from [db_in]. *)
Inductive migrates (w : world) (db_in : string)
    : option sqlrow -> list string -> list stmt -> result (option sqlrow) -> Prop :=
  | migrates_nil new_row :
      migrates w db_in new_row [] [] (Ok new_row)
  | migrates_read_error new_row db dbs :
      pg_select w db_in ("SELECT * FROM " +:+ db) = None ->
      migrates w db_in new_row (db :: dbs) [] (Raise DatabaseError)
  | migrates_copy_error new_row db dbs rows added e :
      pg_select w db_in ("SELECT * FROM " +:+ db) = Some rows ->
      copies db new_row rows added (Raise e) ->
      migrates w db_in new_row (db :: dbs) added (Raise e)
  | migrates_cons new_row db dbs rows added new_row' added' res :
      pg_select w db_in ("SELECT * FROM " +:+ db) = Some rows ->
      copies db new_row rows added (Ok new_row') ->
      migrates w db_in new_row' dbs added' res ->
      migrates w db_in new_row (db :: dbs) (added ++ added') res.

(** The staging session after the commit of [added] and the close, and a
    session that was closed without a commit. *)
Definition committed_closed (database : string) (added : list stmt) : session :=
  {| s_database := database; s_pending := []; s_committed := added;
     s_commits := 1; s_rollbacks := 0; s_closed := true |}.

Definition closed_unused (database : string) : session :=
  {| s_database := database; s_pending := []; s_committed := [];
     s_commits := 0; s_rollbacks := 0; s_closed := true |}.

(** A session on which nothing was committed, rolled back or closed. *)
Definition untouched (ss : session) : Prop :=
  s_committed ss = [] /\ s_commits ss = 0%nat /\ s_rollbacks ss = 0%nat /\
  s_closed ss = false.

(** ** Further vocabulary *)

(** A position counted from the end, written as the index it names. *)
Definition from_end (len : nat) (p : Z) : Z :=
  if p <? 0 then Z.of_nat len + p else p.

(** How often the character [c] occurs in [s]. *)
Fixpoint count_char (c : ascii) (s : string) : nat :=
  match s with
  | EmptyString => 0%nat
  | String c' rest =>
      if Ascii.eqb c' c then S (count_char c rest) else count_char c rest
  end.

(** Everything a session holds, in the open transaction or committed. *)
Definition sent (ss : session) : list stmt := s_pending ss ++ s_committed ss.

(** A computation that leaves what was printed and what was spawned as
    it found them. *)
Definition only_sessions {A} (m : Py A) : Prop :=
  forall s, stdout (m s).2 = stdout s /\ spawned (m s).2 = spawned s.

(** [createdb] writes to its error stream. *)
Definition world_createdb_fails : world :=
  mk_world (fun argv => match argv with
                        | cmd :: _ => if String.eqb cmd "createdb" then noisy 1 else quiet 0
                        | [] => quiet 0
                        end)
    account_rows address_rows statement_rows (fun _ => true).

(** [pg_restore] writes to its error stream. *)
Definition world_restore_fails : world :=
  mk_world (fun argv => match argv with
                        | cmd :: _ => if String.eqb cmd "pg_restore" then noisy 1 else quiet 0
                        | [] => quiet 0
                        end)
    account_rows address_rows statement_rows (fun _ => true).

(** The [address] table is empty. *)
Definition world_no_address : world :=
  mk_world (fun _ => quiet 0) account_rows [] statement_rows (fun _ => true).

(** The first query is refused. *)
Definition world_read_fails : world :=
  {| shlex_split := shlex_split world_fine;
     popen_communicate := popen_communicate world_fine;
     HOST := HOST world_fine; PORT := PORT world_fine;
     USER := USER world_fine; PASSWORD := PASSWORD world_fine;
     pg_connect := pg_connect world_fine;
     pg_select := fun _ _ => None;
     pg_insert := pg_insert world_fine;
     pg_commit := pg_commit world_fine |}.

(** * Properties of [redact] *)

Section RedactFacts.

Implicit Types (r : list value) (columns : list Z) (p : Z) (i k : nat).

Lemma py_index_nonneg len p :
  0 <= p < Z.of_nat len -> py_index len p = Some (Z.to_nat p).
Proof.
  intros [H0 H1]. unfold py_index.
  destruct (Z.leb_spec 0 p); [|lia].
  destruct (Z.ltb_spec p (Z.of_nat len)); [|lia]. reflexivity.
Qed.

Lemma py_index_negative len p :
  - Z.of_nat len <= p < 0 -> py_index len p = Some (Z.to_nat (Z.of_nat len + p)).
Proof.
  intros [H0 H1]. unfold py_index.
  destruct (Z.leb_spec 0 p); [lia|]. simpl.
  destruct (Z.leb_spec (- Z.of_nat len) p); [|lia].
  destruct (Z.ltb_spec p 0); [|lia]. reflexivity.
Qed.

Lemma py_index_None len p :
  py_index len p = None <-> (Z.of_nat len <= p \/ p < - Z.of_nat len).
Proof.
  unfold py_index.
  destruct (Z.leb_spec 0 p); destruct (Z.ltb_spec p (Z.of_nat len)); simpl;
    try (split; [discriminate | lia]);
    try (destruct (Z.leb_spec (- Z.of_nat len) p); destruct (Z.ltb_spec p 0); simpl);
    try (split; [discriminate | lia]);
    split; intros; try reflexivity; lia.
Qed.

Lemma py_index_lt len p k : py_index len p = Some k -> (k < len)%nat.
Proof.
  unfold py_index.
  destruct (Z.leb_spec 0 p); destruct (Z.ltb_spec p (Z.of_nat len)); simpl;
    try (intros [= <-]; lia);
    destruct (Z.leb_spec (- Z.of_nat len) p); destruct (Z.ltb_spec p 0); simpl;
    try discriminate; intros [= <-]; lia.
Qed.

Lemma list_setitem_Ok r p v r' :
  list_setitem r p v = Ok r' ->
  exists k, py_index (length r) p = Some k /\ r' = <[k := v]> r.
Proof.
  unfold list_setitem. destruct (py_index (length r) p) as [k|]; [|discriminate].
  intros [= <-]. eauto.
Qed.

Lemma list_setitem_Raise r p v e :
  list_setitem r p v = Raise e -> py_index (length r) p = None /\ e = IndexError.
Proof.
  unfold list_setitem. destruct (py_index (length r) p); [discriminate|].
  intros [= <-]. auto.
Qed.

Lemma redact_loop_length columns : forall r r',
  redact_loop r columns = Ok r' -> length r' = length r.
Proof.
  induction columns as [|p rest IH]; simpl; intros r r' H.
  - congruence.
  - destruct (list_setitem r p REDACTED) as [r1|] eqn:E; [|discriminate].
    apply list_setitem_Ok in E as (k & _ & ->).
    rewrite (IH _ _ H). apply length_insert.
Qed.

(** The loop succeeds exactly when every position is in range. *)
Lemma redact_loop_Ok_iff columns : forall r,
  (exists r', redact_loop r columns = Ok r') <->
  (forall p, In p columns -> - Z.of_nat (length r) <= p < Z.of_nat (length r)).
Proof.
  induction columns as [|p rest IH]; simpl; intros r.
  - split; [intros _ p [] | eauto].
  - destruct (list_setitem r p REDACTED) as [r1|e] eqn:E.
    + apply list_setitem_Ok in E as (k & Hk & ->).
      rewrite IH, length_insert. split.
      * intros H q [Heq|Hq]; [subst q|auto].
        destruct (py_index_None (length r) p) as [_ Hn].
        destruct (Z_lt_le_dec p (Z.of_nat (length r))); [|rewrite Hn in Hk; [discriminate|lia]].
        destruct (Z_lt_le_dec p (- Z.of_nat (length r))); [rewrite Hn in Hk; [discriminate|lia]|lia].
      * auto.
    + apply list_setitem_Raise in E as [Hn ->]. split.
      * intros [r' [=]].
      * intros H. apply py_index_None in Hn. specialize (H p (or_introl eq_refl)). lia.
Qed.

Lemma redact_loop_Raise columns : forall r e,
  redact_loop r columns = Raise e -> e = IndexError.
Proof.
  induction columns as [|p rest IH]; simpl; intros r e H; [discriminate|].
  destruct (list_setitem r p REDACTED) as [r1|e1] eqn:E; [eauto|].
  apply list_setitem_Raise in E as [_ ->]. congruence.
Qed.

(** Element by element, the loop writes the sentinel where a position
    resolves to and keeps the rest. *)
Lemma redact_loop_lookup columns : forall r r' i,
  redact_loop r columns = Ok r' -> (i < length r)%nat ->
  r' !! i = if hits (length r) columns i then Some REDACTED else r !! i.
Proof.
  induction columns as [|p rest IH]; simpl; intros r r' i H Hi.
  - congruence.
  - destruct (list_setitem r p REDACTED) as [r1|] eqn:E; [|discriminate].
    apply list_setitem_Ok in E as (k & Hk & ->).
    rewrite (IH _ _ i H) by (rewrite length_insert; exact Hi).
    rewrite length_insert, Hk.
    destruct (hits (length r) rest i); [rewrite orb_true_r; reflexivity|].
    rewrite orb_false_r. destruct (Nat.eqb_spec k i) as [->|Hne].
    + apply list_lookup_insert_eq, Hi.
    + apply list_lookup_insert_ne, Hne.
Qed.

Lemma redact_loop_Raise_position columns : forall r e,
  redact_loop r columns = Raise e ->
  exists p, In p columns /\
    (Z.of_nat (length r) <= p \/ p < - Z.of_nat (length r)).
Proof.
  induction columns as [|p rest IH]; simpl; intros r e H; [discriminate|].
  destruct (list_setitem r p REDACTED) as [r1|e1] eqn:E.
  - apply list_setitem_Ok in E as (k & _ & ->).
    destruct (IH _ _ H) as (q & Hq & Hb). rewrite length_insert in Hb. eauto.
  - apply list_setitem_Raise in E as [Hn _]. apply py_index_None in Hn. eauto.
Qed.

Lemma redact_unfold row columns : redact row columns = redact_loop row columns.
Proof. unfold redact. destruct (redact_loop row columns); reflexivity. Qed.

Lemma hits_valid len columns i :
  (forall p, In p columns -> 0 <= p < Z.of_nat len) ->
  hits len columns i = true <-> In (Z.of_nat i) columns.
Proof.
  intros Hv. unfold hits. rewrite existsb_exists. split.
  - intros (p & Hp & H). rewrite (py_index_nonneg _ _ (Hv p Hp)) in H.
    apply Nat.eqb_eq in H. subst i. rewrite Z2Nat.id; [exact Hp|].
    apply (Hv p Hp).
  - intros Hin. exists (Z.of_nat i). split; [exact Hin|].
    rewrite (py_index_nonneg _ _ (Hv _ Hin)), Nat2Z.id. apply Nat.eqb_refl.
Qed.

End RedactFacts.

Section RedactTheorems.

(** C1. For a row of length L and positions that are all valid
    zero-based indices (each in 0..L-1), [redact] returns a row of the
    same length L whose entries at the positions are the sentinel
    ['REDACTED'] and whose other entries are the entries of the input. *)
Theorem redact_correct (row : sqlrow) (positions : list Z) :
  (forall p, In p positions -> 0 <= p < Z.of_nat (length row)) ->
  exists new_row,
    redact row positions = Ok new_row /\
    length new_row = length row /\
    forall i, (i < length row)%nat ->
      (In (Z.of_nat i) positions -> new_row !! i = Some REDACTED) /\
      (~ In (Z.of_nat i) positions -> new_row !! i = row !! i).
Proof.
  intros Hv.
  destruct (proj2 (redact_loop_Ok_iff positions row)) as [new_row Hr].
  { intros p Hp. specialize (Hv p Hp). lia. }
  exists new_row. rewrite redact_unfold. split; [exact Hr|].
  split; [exact (redact_loop_length _ _ _ Hr)|].
  intros i Hi. rewrite (redact_loop_lookup _ _ _ i Hr Hi).
  pose proof (hits_valid (length row) positions i Hv) as Hh.
  destruct (hits (length row) positions i).
  - split; [reflexivity|]. intros Hn. exfalso. apply Hn, Hh. reflexivity.
  - split; [|reflexivity]. intros Hin. apply Hh in Hin. discriminate.
Qed.

Lemma redact_correct_witness :
  exists new_row,
    redact [VInt 1; VStr "Alice Smith"; VStr "a@x.com"] [1] = Ok new_row /\
    length new_row = 3%nat /\
    forall i, (i < 3)%nat ->
      (In (Z.of_nat i) [1] -> new_row !! i = Some REDACTED) /\
      (~ In (Z.of_nat i) [1] -> new_row !! i = [VInt 1; VStr "Alice Smith"; VStr "a@x.com"] !! i).
Proof.
  apply (redact_correct [VInt 1; VStr "Alice Smith"; VStr "a@x.com"] [1]).
  intros p [<-|[]]. simpl. lia.
Defined.

(** C4, as the claim states it, fails: the position -1 is negative, and
    [redact] returns a row, with the last column redacted. *)
Lemma redact_negative_position_accepted :
  let row := [VInt 7; VInt 42; VStr "123 Main St"] in
  let positions := [-1] in
  (exists p, In p positions /\ (Z.of_nat (length row) <= p \/ p < 0)) /\
  redact row positions = Ok [VInt 7; VInt 42; REDACTED].
Proof.
  split; [|reflexivity]. exists (-1). split; [left; reflexivity | right; lia].
Qed.

(** C4, amended. [redact] raises, and then an [IndexError], exactly when
    some position is at least L or below -L; a position in -L..-1 is no
    error and redacts the column L+p, counted from the end. *)
Theorem redact_error_iff (row : sqlrow) (positions : list Z) :
  ((exists e, redact row positions = Raise e) <->
   (exists p, In p positions /\
              (Z.of_nat (length row) <= p \/ p < - Z.of_nat (length row)))) /\
  (forall e, redact row positions = Raise e -> e = IndexError) /\
  (forall p, - Z.of_nat (length row) <= p < 0 ->
     redact row [p] = Ok (<[Z.to_nat (Z.of_nat (length row) + p) := REDACTED]> row)).
Proof.
  rewrite redact_unfold. split; [|split].
  - pose proof (redact_loop_Ok_iff positions row) as Hiff. split.
    + intros [e He]. exact (redact_loop_Raise_position _ _ _ He).
    + intros (p & Hp & Hb).
      destruct (redact_loop row positions) as [r'|e] eqn:E; [|eauto].
      exfalso. pose proof (proj1 Hiff (ex_intro _ r' eq_refl) p Hp). lia.
  - apply redact_loop_Raise.
  - intros p Hp. rewrite redact_unfold. simpl. unfold list_setitem.
    rewrite (py_index_negative _ _ Hp). reflexivity.
Qed.

Lemma redact_error_iff_witness :
  (exists e, redact [VInt 7; VInt 42] [2] = Raise e) /\
  redact [VInt 7; VInt 42] [-2] = Ok [REDACTED; VInt 42].
Proof.
  pose proof (redact_error_iff [VInt 7; VInt 42] [2]) as (Hiff & _ & _).
  pose proof (redact_error_iff [VInt 7; VInt 42] []) as (_ & _ & Hneg).
  split.
  - apply Hiff. exists 2. split; [left; reflexivity | left; simpl; lia].
  - apply (Hneg (-2)). simpl. lia.
Defined.

End RedactTheorems.

Section StoreFacts.

(** The assignments of the loop touch the list at [x] only, and compute
    there what [redact_loop] computes on its elements. *)
Lemma store_redact_loop_spec columns : forall (h : store) (x : loc) (l : list value),
  h !! x = Some (OList l) ->
  length (store_redact_loop h x columns).1 = length h /\
  (forall y, y <> x -> (store_redact_loop h x columns).1 !! y = h !! y) /\
  match (store_redact_loop h x columns).2, redact_loop l columns with
  | Ok _, Ok l' => (store_redact_loop h x columns).1 !! x = Some (OList l')
  | Raise e, Raise e' => e = e'
  | _, _ => False
  end.
Proof.
  induction columns as [|p rest IH]; simpl; intros h x l Hx.
  - auto.
  - unfold store_setitem. rewrite Hx.
    destruct (list_setitem l p REDACTED) as [l1|e]; simpl; [|auto].
    pose proof (lookup_lt_Some _ _ _ Hx) as Hlt.
    destruct (IH (<[x := OList l1]> h) x l1) as (Hlen & Hother & Hres).
    { apply list_lookup_insert_eq, Hlt. }
    rewrite length_insert in Hlen. split; [exact Hlen|]. split; [|exact Hres].
    intros y Hy. rewrite (Hother y Hy). apply list_lookup_insert_ne. congruence.
Qed.

(** A call leaves every object that existed before it as it was, and
    returns a tuple holding what [redact] computes on the elements. *)
Lemma store_redact_spec (h : store) (row : loc) (o : obj) (columns : list Z) :
  h !! row = Some o ->
  (forall y, (y < length h)%nat -> (store_redact h row columns).1 !! y = h !! y) /\
  returned (store_redact h row columns) = redact (elems_of o) columns.
Proof.
  intros Hrow. unfold store_redact, alloc. rewrite Hrow, redact_unfold.
  destruct (store_redact_loop_spec columns (h ++ [OList (elems_of o)]) (length h) (elems_of o))
    as (Hlen & Hother & Hres).
  { rewrite lookup_app_r by lia. rewrite Nat.sub_diag. reflexivity. }
  rewrite length_app in Hlen.
  destruct (store_redact_loop (h ++ [OList (elems_of o)]) (length h) columns)
    as [h2 [[]|e]]; simpl in *;
    destruct (redact_loop (elems_of o) columns) as [l'|e']; try contradiction.
  - rewrite Hres. simpl. split.
    + intros y Hy. rewrite lookup_app_l by lia.
      rewrite Hother by lia. apply lookup_app_l, Hy.
    + rewrite lookup_app_r by lia. rewrite Nat.sub_diag. reflexivity.
  - subst e'. split; [|reflexivity].
    intros y Hy. rewrite Hother by lia. apply lookup_app_l, Hy.
Qed.

(** Redacting a redacted row again changes nothing. *)
Lemma redact_idempotent (row r : sqlrow) (columns : list Z) :
  redact row columns = Ok r -> redact r columns = Ok r.
Proof.
  rewrite !redact_unfold. intros H.
  pose proof (redact_loop_length _ _ _ H) as Hlen.
  destruct (proj2 (redact_loop_Ok_iff columns r)) as [r2 H2].
  { rewrite Hlen. apply (redact_loop_Ok_iff columns row). eauto. }
  rewrite H2. f_equal. apply list_eq. intros i.
  destruct (Nat.lt_ge_cases i (length r)) as [Hi|Hi].
  - rewrite (redact_loop_lookup _ _ _ i H2 Hi).
    rewrite (redact_loop_lookup _ _ _ i H) by lia.
    rewrite Hlen. destruct (hits (length row) columns i); reflexivity.
  - rewrite !lookup_ge_None_2; [reflexivity | lia |].
    rewrite (redact_loop_length _ _ _ H2). lia.
Qed.

End StoreFacts.

(** C8. [redact] never mutates its input row: whatever object the store
    held before the call, the row included, it holds after it. Repeated
    calls with the same inputs return equal tuples, and redacting the
    returned row again with the same positions returns an equal row:
    redact(redact(row, P), P) == redact(row, P). *)
Theorem redact_purity (h : store) (row : loc) (o : obj) (P : list Z) :
  h !! row = Some o ->
  let first := store_redact h row P in
  let again := store_redact first.1 row P in
  (forall y, (y < length h)%nat -> first.1 !! y = h !! y) /\
  first.1 !! row = Some o /\
  again.1 !! row = Some o /\
  returned again = returned first /\
  returned first = redact (elems_of o) P /\
  match first.2 with
  | Ok once => returned (store_redact first.1 once P) = returned first
  | Raise _ => True
  end.
Proof.
  intros Hrow first again.
  destruct (store_redact_spec h row o P Hrow) as [Hkeep Hret].
  fold first in Hkeep, Hret.
  pose proof (lookup_lt_Some _ _ _ Hrow) as Hlt.
  assert (Hrow1 : first.1 !! row = Some o) by (rewrite Hkeep; auto).
  destruct (store_redact_spec first.1 row o P Hrow1) as [Hkeep2 Hret2].
  fold again in Hkeep2, Hret2.
  split; [exact Hkeep|]. split; [exact Hrow1|]. split.
  { rewrite Hkeep2; [exact Hrow1 | exact (lookup_lt_Some _ _ _ Hrow1)]. }
  split; [congruence|]. split; [exact Hret|].
  destruct first as [h1 [once|e]] eqn:Ef; simpl in *; [|exact I].
  destruct (h1 !! once) as [[l|l]|] eqn:Eonce;
    try (symmetry in Hret; rewrite redact_unfold in Hret;
         apply redact_loop_Raise in Hret; discriminate).
  destruct (store_redact_spec h1 once (OTuple l) P Eonce) as [_ Hret3].
  rewrite Hret3. simpl. apply (redact_idempotent (elems_of o)). congruence.
Qed.

Lemma redact_purity_witness :
  let h := [OTuple [VInt 1; VStr "Alice Smith"; VStr "a@x.com"]] in
  let first := store_redact h 0%nat [1] in
  first.1 !! 0%nat = Some (OTuple [VInt 1; VStr "Alice Smith"; VStr "a@x.com"]) /\
  returned first = Ok [VInt 1; REDACTED; VStr "a@x.com"] /\
  returned (store_redact first.1 0%nat [1]) = returned first.
Proof.
  pose proof (redact_purity [OTuple [VInt 1; VStr "Alice Smith"; VStr "a@x.com"]]
                0%nat (OTuple [VInt 1; VStr "Alice Smith"; VStr "a@x.com"]) [1] eq_refl)
    as (_ & Hrow & _ & Hagain & Hfirst & _).
  split; [exact Hrow|]. split; [exact Hfirst | exact Hagain].
Defined.

(** * Properties of the script *)

Section MonadFacts.

Lemma run_bind {A B} (m : Py A) (f : A -> Py B) (s : state) :
  (m ≫= f) s = match m s with
               | (Ok a, s') => f a s'
               | (Raise e, s') => (Raise e, s')
               end.
Proof. reflexivity. Qed.

Lemma for_each_cons {A V} (x : A) (xs : list A) (body : V -> A -> Py V) (v : V) (s : state) :
  for_each (x :: xs) body v s =
  match body v x s with
  | (Ok v', s') => for_each xs body v' s'
  | (Raise e, s') => (Raise e, s')
  end.
Proof. reflexivity. Qed.

Lemma set_sessions_same (s : state) (l : list session) :
  sessions s = l -> set_sessions l s = s.
Proof. intros <-. destruct s; reflexivity. Qed.

Lemma set_sessions_twice (s : state) (l l' : list session) :
  set_sessions l (set_sessions l' s) = set_sessions l s.
Proof. reflexivity. Qed.

Lemma add_pending_nil (ss : session) : add_pending [] ss = ss.
Proof. destruct ss; unfold add_pending; simpl. rewrite app_nil_r. reflexivity. Qed.

Lemma add_pending_app (a b : list stmt) (ss : session) :
  add_pending b (add_pending a ss) = add_pending (a ++ b) ss.
Proof. unfold add_pending; simpl. rewrite app_assoc. reflexivity. Qed.

End MonadFacts.

Section CopyLoops.

Variable w : world.

(** One pass through the body of the inner loop. *)
Lemma migrate_row_run (db : string) (new_row : option sqlrow) (row : sqlrow)
    (s : state) (st pr : session) :
  sessions s = [st; pr] -> s_closed st = false ->
  migrate_row w 0%nat db new_row row s =
  match deidentify db new_row row with
  | Raise e => (Raise e, s)
  | Ok None => (Raise (UnboundLocalError "new_row"), s)
  | Ok (Some nr) =>
      if pg_insert w (s_database st) (s_pending st) (insert_stmt db nr)
      then (Ok (Some nr), set_sessions [add_pending [insert_stmt db nr] st; pr] s)
      else (Raise DatabaseError, s)
  end.
Proof.
  intros Hs Hc. unfold migrate_row. rewrite run_bind. unfold lift.
  destruct (deidentify db new_row row) as [[nr|]|e]; try reflexivity.
  rewrite run_bind. unfold execute, with_session. rewrite Hs. simpl. rewrite Hc.
  fold (insert_stmt db nr).
  destruct (pg_insert w (s_database st) (s_pending st) (insert_stmt db nr)).
  - unfold add_pending. rewrite Hc. reflexivity.
  - f_equal. apply set_sessions_same. exact Hs.
Qed.

Lemma rows_loop (db : string) (rows : list sqlrow) :
  forall (new_row : option sqlrow) (s : state) (st pr : session),
  sessions s = [st; pr] -> s_closed st = false ->
  exists added,
    (for_each rows (migrate_row w 0%nat db) new_row s).2
      = set_sessions [add_pending added st; pr] s /\
    copies db new_row rows added (for_each rows (migrate_row w 0%nat db) new_row s).1.
Proof.
  induction rows as [|row rows IH]; intros new_row s st pr Hs Hc.
  - exists []. simpl. rewrite add_pending_nil. split; [|constructor].
    symmetry. apply set_sessions_same, Hs.
  - rewrite for_each_cons, (migrate_row_run db new_row row s st pr Hs Hc).
    assert (Hsame : s = set_sessions [add_pending [] st; pr] s)
      by (rewrite add_pending_nil; symmetry; apply set_sessions_same, Hs).
    destruct (deidentify db new_row row) as [[nr|]|e] eqn:Ed.
    + destruct (pg_insert w (s_database st) (s_pending st) (insert_stmt db nr)).
      * destruct (IH (Some nr) (set_sessions [add_pending [insert_stmt db nr] st; pr] s)
                    (add_pending [insert_stmt db nr] st) pr eq_refl Hc)
          as (added & Hst & Hcp).
        exists (insert_stmt db nr :: added). split.
        -- rewrite Hst, add_pending_app. reflexivity.
        -- apply copies_cons; assumption.
      * exists []. split; [exact Hsame | eapply copies_rejected; eassumption].
    + exists []. split; [exact Hsame | apply copies_unbound; assumption].
    + exists []. split; [exact Hsame | apply copies_redact_error; assumption].
Qed.

End CopyLoops.

Section ScriptRun.

Variable w : world.

Lemma migrate_table_run (new_row : option sqlrow) (db : string)
    (s : state) (st pr : session) :
  sessions s = [st; pr] -> s_closed pr = false ->
  migrate_table w 1%nat 0%nat new_row db s =
  match pg_select w (s_database pr) ("SELECT * FROM " +:+ db) with
  | Some rows => for_each rows (migrate_row w 0%nat db) new_row s
  | None => (Raise DatabaseError, s)
  end.
Proof.
  intros Hs Hc. unfold migrate_table. rewrite run_bind.
  unfold execute_fetchall, with_session. rewrite Hs. simpl. rewrite Hc.
  destruct (pg_select w (s_database pr) ("SELECT * FROM " +:+ db));
    rewrite (set_sessions_same s [st; pr] Hs); reflexivity.
Qed.

Lemma tables_loop (dbs : list string) :
  forall (new_row : option sqlrow) (s : state) (st pr : session),
  sessions s = [st; pr] -> s_closed st = false -> s_closed pr = false ->
  exists added,
    (for_each dbs (migrate_table w 1%nat 0%nat) new_row s).2
      = set_sessions [add_pending added st; pr] s /\
    migrates w (s_database pr) new_row dbs added
      (for_each dbs (migrate_table w 1%nat 0%nat) new_row s).1.
Proof.
  induction dbs as [|db dbs IH]; intros new_row s st pr Hs Hst Hpr.
  - exists []. simpl. rewrite add_pending_nil. split; [|constructor].
    symmetry. apply set_sessions_same, Hs.
  - rewrite for_each_cons, (migrate_table_run new_row db s st pr Hs Hpr).
    destruct (pg_select w (s_database pr) ("SELECT * FROM " +:+ db)) as [rows|] eqn:Esel.
    + destruct (rows_loop w db rows new_row s st pr Hs Hst) as (added & Hstate & Hcopies).
      destruct (for_each rows (migrate_row w 0%nat db) new_row s) as [[new_row'|e] s1];
        simpl in Hstate, Hcopies.
      * subst s1.
        destruct (IH new_row' (set_sessions [add_pending added st; pr] s)
                    (add_pending added st) pr eq_refl Hst Hpr) as (added' & Hstate' & Hrest).
        exists (added ++ added'). split.
        -- rewrite Hstate', add_pending_app. reflexivity.
        -- eapply migrates_cons; eassumption.
      * exists added. split; [exact Hstate|].
        eapply migrates_copy_error; eassumption.
    + exists []. simpl. rewrite add_pending_nil. split.
      * symmetry. apply set_sessions_same, Hs.
      * apply migrates_read_error, Esel.
Qed.

Lemma call_process_run (cmd : string) (s : state) :
  call_process w cmd s =
  match shlex_split w cmd with
  | None => (Raise ValueError, s)
  | Some cmds =>
      match popen_communicate w (spawned s) cmds with
      | None => (Raise OSError, s)
      | Some p =>
          if bytes_truthy (err_stream p)
          then (Ok false, {| stdout := stdout s ++ [OutBytes (err_stream p)];
                             spawned := spawned s ++ [cmds];
                             sessions := sessions s |})
          else (Ok true, {| stdout := stdout s; spawned := spawned s ++ [cmds];
                            sessions := sessions s |})
      end
  end.
Proof.
  unfold call_process. rewrite run_bind.
  destruct (shlex_split w cmd) as [cmds|]; [|reflexivity].
  rewrite run_bind.
  destruct (popen_communicate w (spawned s) cmds) as [p|]; [|reflexivity].
  destruct (bytes_truthy (err_stream p)); reflexivity.
Qed.

Lemma call_process_sessions (cmd : string) (s : state) :
  sessions (call_process w cmd s).2 = sessions s.
Proof.
  rewrite call_process_run.
  destruct (shlex_split w cmd) as [cmds|]; [|reflexivity].
  destruct (popen_communicate w (spawned s) cmds) as [p|]; [|reflexivity].
  destruct (bytes_truthy (err_stream p)); reflexivity.
Qed.

(** The guard after each tool: pass on [True], print and exit on
    [False]. *)
Lemma guard_run {A} (ok : bool) (msg : output) (rest : unit -> Py A) (s : state) :
  ((if negb ok then print msg;; sys_exit 1 else mret tt) ≫= rest) s =
  if ok then rest tt s
  else (Raise (SystemExit 1),
        {| stdout := stdout s ++ [msg]; spawned := spawned s; sessions := sessions s |}).
Proof. destruct ok; reflexivity. Qed.

Lemma connect_to_psql_run (db_name : string) (s : state) :
  exists p, cp_database p = db_name /\
  connect_to_psql w db_name [] s =
  if pg_connect w p
  then (Ok (length (sessions s)), set_sessions (sessions s ++ [new_session db_name]) s)
  else (Raise DatabaseError, s).
Proof.
  eexists. split; [|unfold connect_to_psql; rewrite run_bind;
                    unfold psycopg2_connect;
                    match goal with |- context [pg_connect w ?p] =>
                      destruct (pg_connect w p) eqn:E end; simpl;
                    rewrite E; reflexivity].
  reflexivity.
Qed.

(** How a run of the whole script ends: before both sessions are open
    with an exception and at most the staging session; otherwise after
    the loops, whose course decides between the commit with both closes
    and an exception that leaves both sessions as the loops left them. *)
Lemma migrate_db_run (db_in db_out : string) (s0 : state) :
  sessions s0 = [] ->
  (is_ok (migrate_db w db_in db_out s0).1 = false /\
   (sessions (migrate_db w db_in db_out s0).2 = [] \/
    sessions (migrate_db w db_in db_out s0).2 = [new_session db_out])) \/
  (exists added res,
     migrates w db_in None tables added res /\
     (if is_ok res && pg_commit w db_out added
      then (migrate_db w db_in db_out s0).1 = Ok tt /\
           sessions (migrate_db w db_in db_out s0).2
             = [committed_closed db_out added; closed_unused db_in]
      else is_ok (migrate_db w db_in db_out s0).1 = false /\
           (forall e, res = Raise e -> (migrate_db w db_in db_out s0).1 = Raise e) /\
           sessions (migrate_db w db_in db_out s0).2
             = [add_pending added (new_session db_out); new_session db_in])).
Proof.
  intros H0. remember (migrate_db w db_in db_out s0) as run eqn:Hrun.
  unfold migrate_db in Hrun.
  repeat match type of Hrun with
  | context [ (call_process w ?c ≫= _) ?s ] =>
      rewrite (run_bind (call_process w c) _ s) in Hrun;
      let H := fresh "Hs" in
      pose proof (call_process_sessions c s) as H;
      destruct (call_process w c s) as [[ok|?] ?]; simpl in H;
      [ rewrite guard_run in Hrun; destruct ok | ];
      [ | subst run; left; simpl; split; [reflexivity | left; congruence] ..]
  end.
  assert (Hs2 : sessions s2 = []) by congruence.
  rewrite run_bind in Hrun.
  destruct (connect_to_psql_run db_out s2) as (p1 & _ & Hc1).
  rewrite Hc1, Hs2 in Hrun. simpl app in Hrun. simpl length in Hrun.
  destruct (pg_connect w p1);
    [| subst run; left; simpl; split; [reflexivity | left; congruence]].
  change (cursor ?c ≫= ?f) with (f c) in Hrun. cbv beta in Hrun.
  rewrite run_bind in Hrun.
  destruct (connect_to_psql_run db_in (set_sessions [new_session db_out] s2))
    as (p2 & _ & Hc2).
  rewrite Hc2 in Hrun. simpl sessions in Hrun. simpl app in Hrun. simpl length in Hrun.
  rewrite set_sessions_twice in Hrun.
  destruct (pg_connect w p2);
    [| subst run; left; simpl; split; [reflexivity | right; reflexivity]].
  change (cursor ?c ≫= ?f) with (f c) in Hrun. cbv beta in Hrun.
  rewrite run_bind in Hrun.
  destruct (tables_loop tables None
              (set_sessions [new_session db_out; new_session db_in] s2)
              (new_session db_out) (new_session db_in))
    as (added & Hstate & Hmig); [reflexivity..|].
  destruct (for_each tables (migrate_table w 1%nat 0%nat) None
              (set_sessions [new_session db_out; new_session db_in] s2))
    as [[new_row|e] s4]; simpl in Hstate, Hmig; subst s4; right.
  - exists added, (Ok new_row). split; [exact Hmig|]. simpl is_ok. rewrite andb_true_l.
    rewrite run_bind in Hrun. unfold commit at 1, with_session in Hrun. simpl in Hrun.
    destruct (pg_commit w db_out added); subst run.
    + split; reflexivity.
    + split; [reflexivity|]. split; [intros e [=] | reflexivity].
  - exists added, (Raise e). split; [exact Hmig|]. subst run. simpl.
    split; [reflexivity|]. split; [intros e' [= <-]; reflexivity | reflexivity].
Qed.

End ScriptRun.

Section LoopFacts.

Lemma rows_into_app (t : string) (a b : list stmt) :
  rows_into t (a ++ b) = rows_into t a ++ rows_into t b.
Proof.
  induction a as [|st a IH]; simpl; [reflexivity|].
  destruct (String.eqb (sql_text st) (insert_sql t (length (sql_params st))));
    simpl; congruence.
Qed.

(** Among the three tables the text of the insert names the table. *)
Lemma insert_sql_table (db t : string) (n : nat) :
  In db tables -> In t tables ->
  String.eqb (insert_sql db n) (insert_sql t n) = true -> db = t.
Proof.
  unfold tables. simpl.
  intros [<-|[<-|[<-|[]]]] [<-|[<-|[<-|[]]]]; try reflexivity;
    intros H; apply String.eqb_eq in H; unfold insert_sql in H; simpl in H;
    discriminate H.
Qed.

Lemma rows_into_same (db : string) (new_row : option sqlrow) (rows : list sqlrow)
    (added : list stmt) (res : result (option sqlrow)) :
  copies db new_row rows added res -> rows_into db added = map sql_params added.
Proof.
  induction 1; cbn [rows_into insert_stmt sql_text sql_params map]; try reflexivity.
  rewrite String.eqb_refl. congruence.
Qed.

Lemma rows_into_other (db t : string) (new_row : option sqlrow) (rows : list sqlrow)
    (added : list stmt) (res : result (option sqlrow)) :
  In db tables -> In t tables -> db <> t ->
  copies db new_row rows added res -> rows_into t added = [].
Proof.
  intros Hdb Ht Hne.
  induction 1; cbn [rows_into insert_stmt sql_text sql_params]; try reflexivity.
  destruct (String.eqb (insert_sql db (length nr)) (insert_sql t (length nr))) eqn:E;
    [|assumption].
  exfalso. apply Hne. exact (insert_sql_table db t _ Hdb Ht E).
Qed.

Lemma copies_count (db : string) (new_row new_row' : option sqlrow)
    (rows : list sqlrow) (added : list stmt) :
  copies db new_row rows added (Ok new_row') -> length added = length rows.
Proof.
  remember (Ok new_row') as res eqn:Hres.
  induction 1; simpl; try discriminate; auto.
Qed.

Lemma deidentify_account (new_row : option sqlrow) (row : sqlrow) :
  deidentify "account" new_row row =
  match redact row [1] with Ok r => Ok (Some r) | Raise e => Raise e end.
Proof.
  unfold deidentify. cbn [String.eqb Ascii.eqb Bool.eqb].
  destruct (redact row [1]); reflexivity.
Qed.

Lemma deidentify_address (new_row : option sqlrow) (row : sqlrow) :
  deidentify "address" new_row row =
  match redact row [2] with Ok r => Ok (Some r) | Raise e => Raise e end.
Proof.
  unfold deidentify. cbn [String.eqb Ascii.eqb Bool.eqb].
  destruct (redact row [2]); reflexivity.
Qed.

Lemma deidentify_statement (new_row : option sqlrow) (row : sqlrow) :
  deidentify "statement" new_row row = Ok new_row.
Proof. reflexivity. Qed.

(** While [statement] is copied [new_row] keeps the value it had on
    entry, and that value is what every insert sends. *)
Lemma copies_statement (new_row : option sqlrow) (rows : list sqlrow)
    (added : list stmt) (res : result (option sqlrow)) :
  copies "statement" new_row rows added res ->
  Forall (fun st => new_row = Some (sql_params st)) added.
Proof.
  induction 1 as [| nv row rows nr added res Hd _ IH | | |]; try constructor.
  - rewrite deidentify_statement in Hd. injection Hd as ->. reflexivity.
  - rewrite deidentify_statement in Hd. injection Hd as ->. exact IH.
Qed.

Lemma copies_nil_inv (db : string) (new_row : option sqlrow) (added : list stmt)
    (res : result (option sqlrow)) :
  copies db new_row [] added res -> added = [] /\ res = Ok new_row.
Proof. inversion 1; auto. Qed.

(** After a copy of [address] that ran through at least one row,
    [new_row] holds the redacted last row. *)
Lemma copies_address_last (new_row new_row' : option sqlrow) (rows : list sqlrow)
    (added : list stmt) (last_row : sqlrow) :
  copies "address" new_row rows added (Ok new_row') ->
  last rows = Some last_row ->
  exists nr, redact last_row [2] = Ok nr /\ new_row' = Some nr.
Proof.
  remember (Ok new_row') as res eqn:Hres. intros Hc. revert last_row.
  induction Hc as [| nv row rows nr added res Hd Hc IH | | |]; intros last_row Hl;
    try discriminate.
  destruct rows as [|row' rows'].
  - simpl in Hl. injection Hl as <-.
    apply copies_nil_inv in Hc as [_ Hnil]. rewrite Hnil in Hres.
    injection Hres as <-. exists nr. split; [|reflexivity].
    rewrite deidentify_address in Hd.
    destruct (redact row [2]); congruence.
  - apply IH; [exact Hres|]. exact Hl.
Qed.

End LoopFacts.

Section RunFacts.

Variable w : world.
Variable db_in db_out : string.

Lemma migrates_cons_inv (new_row : option sqlrow) (db : string) (dbs : list string)
    (added : list stmt) (res : result (option sqlrow)) :
  migrates w db_in new_row (db :: dbs) added res ->
  match pg_select w db_in ("SELECT * FROM " +:+ db) with
  | None => added = [] /\ res = Raise DatabaseError
  | Some rows =>
      exists a1 r1, copies db new_row rows a1 r1 /\
        match r1 with
        | Raise e => added = a1 /\ res = Raise e
        | Ok new_row' =>
            exists a2, added = a1 ++ a2 /\ migrates w db_in new_row' dbs a2 res
        end
  end.
Proof.
  inversion 1; subst;
    match goal with Hsel : pg_select _ _ _ = _ |- _ => rewrite Hsel end.
  - auto.
  - eexists _, (Raise _). split; [eassumption | split; reflexivity].
  - eexists _, (Ok _). split; [eassumption|].
    eexists. split; [reflexivity | eassumption].
Qed.

Lemma migrates_nil_inv (new_row : option sqlrow) (added : list stmt)
    (res : result (option sqlrow)) :
  migrates w db_in new_row [] added res -> added = [] /\ res = Ok new_row.
Proof. inversion 1; auto. Qed.

(** A run that returns has committed what the loops sent and closed both
    sessions; a run that raises has left every session untouched. *)
Lemma migrate_db_ends :
  match (migrate_db w db_in db_out init_state).1 with
  | Ok _ =>
      exists added new_row,
        migrates w db_in None tables added (Ok new_row) /\
        sessions (migrate_db w db_in db_out init_state).2
          = [committed_closed db_out added; closed_unused db_in]
  | Raise _ => Forall untouched (sessions (migrate_db w db_in db_out init_state).2)
  end.
Proof.
  destruct (migrate_db_run w db_in db_out init_state eq_refl)
    as [[Hfail Hs] | (added & res & Hmig & Hend)].
  - destruct (migrate_db w db_in db_out init_state).1; [discriminate|].
    destruct Hs as [-> | ->]; repeat constructor.
  - destruct (is_ok res && pg_commit w db_out added) eqn:E.
    + destruct Hend as [-> ->]. apply andb_true_iff in E as [Hok _].
      destruct res; [eauto | discriminate].
    + destruct Hend as (Hf & _ & ->).
      destruct (migrate_db w db_in db_out init_state).1; [discriminate|].
      repeat constructor.
Qed.

(** In a run of all three tables that returns, each table sent as many
    inserts as it has rows. *)
Lemma migrates_counts (new_row new_row' : option sqlrow) (added : list stmt) (t : string) :
  migrates w db_in new_row tables added (Ok new_row') ->
  In t tables ->
  exists rows, pg_select w db_in ("SELECT * FROM " +:+ t) = Some rows /\
               length (rows_into t added) = length rows.
Proof.
  intros Hm Ht. unfold tables in Hm.
  apply migrates_cons_inv in Hm.
  destruct (pg_select w db_in ("SELECT * FROM " +:+ "account")) as [acc|] eqn:E1;
    [|destruct Hm; discriminate].
  destruct Hm as (a1 & [nv1|e1] & Hc1 & Hm); [|destruct Hm; discriminate].
  destruct Hm as (r1 & -> & Hm). apply migrates_cons_inv in Hm.
  destruct (pg_select w db_in ("SELECT * FROM " +:+ "address")) as [addr|] eqn:E2;
    [|destruct Hm; discriminate].
  destruct Hm as (a2 & [nv2|e2] & Hc2 & Hm); [|destruct Hm; discriminate].
  destruct Hm as (r2 & -> & Hm). apply migrates_cons_inv in Hm.
  destruct (pg_select w db_in ("SELECT * FROM " +:+ "statement")) as [stm|] eqn:E3;
    [|destruct Hm; discriminate].
  destruct Hm as (a3 & [nv3|e3] & Hc3 & Hm); [|destruct Hm; discriminate].
  destruct Hm as (r3 & -> & Hm). apply migrates_nil_inv in Hm as [-> _].
  rewrite app_nil_r, !rows_into_app, !length_app.
  assert (Hin : forall x, In x ["account"; "address"; "statement"] -> In x tables)
    by (intros x Hx; exact Hx).
  destruct Ht as [<-|[<-|[<-|[]]]].
  - exists acc. split; [exact E1|].
    rewrite (rows_into_same _ _ _ _ _ Hc1), length_map, (copies_count _ _ _ _ _ Hc1).
    rewrite (rows_into_other "address" "account" _ _ _ _) by
      (first [eassumption | discriminate | apply Hin; simpl; tauto]).
    rewrite (rows_into_other "statement" "account" _ _ _ _) by
      (first [eassumption | discriminate | apply Hin; simpl; tauto]).
    simpl. lia.
  - exists addr. split; [exact E2|].
    rewrite (rows_into_same _ _ _ _ _ Hc2), length_map, (copies_count _ _ _ _ _ Hc2).
    rewrite (rows_into_other "account" "address" _ _ _ _) by
      (first [eassumption | discriminate | apply Hin; simpl; tauto]).
    rewrite (rows_into_other "statement" "address" _ _ _ _) by
      (first [eassumption | discriminate | apply Hin; simpl; tauto]).
    simpl. lia.
  - exists stm. split; [exact E3|].
    rewrite (rows_into_same _ _ _ _ _ Hc3), length_map, (copies_count _ _ _ _ _ Hc3).
    rewrite (rows_into_other "account" "statement" _ _ _ _) by
      (first [eassumption | discriminate | apply Hin; simpl; tauto]).
    rewrite (rows_into_other "address" "statement" _ _ _ _) by
      (first [eassumption | discriminate | apply Hin; simpl; tauto]).
    simpl. lia.
Qed.

End RunFacts.

(** * The transaction and the sessions *)




(** C5, as the claim states it, fails: every read and every write
    succeeds, [account] has one row, and no row reaches the destination,
    because the row has no column 1 for [redact]. *)
Lemma redact_failure_copies_no_row :
  let run := migrate_db world_narrow "prod" "staging" init_state in
  (forall q, In q ["SELECT * FROM account"; "SELECT * FROM address";
                   "SELECT * FROM statement"] ->
             is_Some (pg_select world_narrow "prod" q)) /\
  (forall db pending st, pg_insert world_narrow db pending st = true) /\
  (forall db pending, pg_commit world_narrow db pending = true) /\
  pg_select world_narrow "prod" "SELECT * FROM account" = Some [[VInt 1]] /\
  run.1 = Raise IndexError /\
  map (fun ss => rows_into "account" (s_pending ss ++ s_committed ss)) (sessions run.2)
    = [[]; []].
Proof.
  split; [|split; [|split; [|split; [|split]]]]; try reflexivity.
  intros q [<-|[<-|[<-|[]]]]; vm_compute; eauto.
Qed.

(** C5, amended. In a run that returns, each of the three tables has
    exactly as many rows committed to the destination as the source table
    has rows, and nothing is left pending. In a run that raises, no row
    of any table is committed. *)
Theorem row_count_conservation (w : world) (db_in db_out : string) :
  let run := migrate_db w db_in db_out init_state in
  match run.1 with
  | Ok _ =>
      exists staging prod,
        sessions run.2 = [staging; prod] /\
        s_pending staging = [] /\
        forall t, In t tables ->
          exists rows,
            pg_select w db_in ("SELECT * FROM " +:+ t) = Some rows /\
            length (rows_into t (s_committed staging)) = length rows
  | Raise _ => Forall (fun ss => s_committed ss = []) (sessions run.2)
  end.
Proof.
  intros run. subst run. pose proof (migrate_db_ends w db_in db_out) as H.
  destruct (migrate_db w db_in db_out init_state).1.
  - destruct H as (added & new_row & Hm & ->). eexists _, _.
    split; [reflexivity|]. split; [reflexivity|].
    intros t Ht. exact (migrates_counts w db_in None new_row added t Hm Ht).
  - eapply Forall_impl; [exact H|]. unfold untouched. tauto.
Qed.

Lemma row_count_conservation_witness :
  exists staging prod,
    sessions (migrate_db world_fine "prod" "staging" init_state).2 = [staging; prod] /\
    s_pending staging = [] /\
    forall t, In t tables ->
      exists rows,
        pg_select world_fine "prod" ("SELECT * FROM " +:+ t) = Some rows /\
        length (rows_into t (s_committed staging)) = length rows.
Proof. exact (row_count_conservation world_fine "prod" "staging"). Defined.




(** * The rows sent for [statement] *)

Section StatementRows.

Variable w : world.
Variable db_in db_out : string.

Lemma copies_statement_unbound (row : sqlrow) (rows : list sqlrow)
    (added : list stmt) (res : result (option sqlrow)) :
  copies "statement" None (row :: rows) added res ->
  added = [] /\ res = Raise (UnboundLocalError "new_row").
Proof.
  inversion 1; subst;
    match goal with Hd : deidentify _ _ _ = _ |- _ =>
      rewrite deidentify_statement in Hd; try discriminate Hd
    end.
  auto.
Qed.

(** Whatever the loops sent for [statement] is the redacted last row of
    [address], when [address] has a row. *)
Lemma migrates_statement_rows (added : list stmt) (res : result (option sqlrow))
    (address : list sqlrow) (last_row : sqlrow) :
  migrates w db_in None tables added res ->
  pg_select w db_in ("SELECT * FROM " +:+ "address") = Some address ->
  last address = Some last_row ->
  Forall (fun x => redact last_row [2] = Ok x) (rows_into "statement" added).
Proof.
  intros Hm Haddr Hlast. unfold tables in Hm.
  assert (Hin : forall x, In x ["account"; "address"; "statement"] -> In x tables)
    by (intros x Hx; exact Hx).
  assert (Hacc : forall nv rows a r, copies "account" nv rows a r ->
                                     rows_into "statement" a = []).
  { intros nv rows a r. apply rows_into_other; [apply Hin; simpl; tauto ..|discriminate]. }
  assert (Had : forall nv rows a r, copies "address" nv rows a r ->
                                    rows_into "statement" a = []).
  { intros nv rows a r. apply rows_into_other; [apply Hin; simpl; tauto ..|discriminate]. }
  apply migrates_cons_inv in Hm.
  destruct (pg_select w db_in ("SELECT * FROM " +:+ "account")) as [acc|];
    [|destruct Hm as [-> _]; constructor].
  destruct Hm as (a1 & [nv1|e1] & Hc1 & Hm);
    [|destruct Hm as [-> _]; rewrite (Hacc _ _ _ _ Hc1); constructor].
  destruct Hm as (r1 & -> & Hm). apply migrates_cons_inv in Hm. rewrite Haddr in Hm.
  rewrite rows_into_app, (Hacc _ _ _ _ Hc1), app_nil_l.
  destruct Hm as (a2 & [nv2|e2] & Hc2 & Hm);
    [|destruct Hm as [-> _]; rewrite (Had _ _ _ _ Hc2); constructor].
  destruct Hm as (r2 & -> & Hm). apply migrates_cons_inv in Hm.
  rewrite rows_into_app, (Had _ _ _ _ Hc2), app_nil_l.
  destruct (copies_address_last _ _ _ _ _ Hc2 Hlast) as (nr & Hnr & ->).
  assert (Hst : forall rows a r, copies "statement" (Some nr) rows a r ->
                  Forall (fun x => redact last_row [2] = Ok x) (rows_into "statement" a)).
  { intros rows a r Hc. rewrite (rows_into_same _ _ _ _ _ Hc).
    apply copies_statement in Hc. rewrite Forall_map.
    eapply Forall_impl; [exact Hc|]. intros st [= <-]. exact Hnr. }
  destruct (pg_select w db_in ("SELECT * FROM " +:+ "statement")) as [stm|];
    [|destruct Hm as [-> _]; constructor].
  destruct Hm as (a3 & [nv3|e3] & Hc3 & Hm);
    [|destruct Hm as [-> _]; exact (Hst _ _ _ Hc3)].
  destruct Hm as (r3 & -> & Hm). apply migrates_nil_inv in Hm as [-> _].
  rewrite app_nil_r. exact (Hst _ _ _ Hc3).
Qed.

(** With [account] and [address] empty, the first row of [statement]
    stops the loops before anything is sent. *)
Lemma migrates_unbound (added : list stmt) (res : result (option sqlrow))
    (row : sqlrow) (rows : list sqlrow) :
  migrates w db_in None tables added res ->
  pg_select w db_in ("SELECT * FROM " +:+ "account") = Some [] ->
  pg_select w db_in ("SELECT * FROM " +:+ "address") = Some [] ->
  pg_select w db_in ("SELECT * FROM " +:+ "statement") = Some (row :: rows) ->
  added = [] /\ res = Raise (UnboundLocalError "new_row").
Proof.
  intros Hm H1 H2 H3. unfold tables in Hm.
  apply migrates_cons_inv in Hm. rewrite H1 in Hm.
  destruct Hm as (a1 & r1 & Hc1 & Hm). apply copies_nil_inv in Hc1 as [-> ->].
  destruct Hm as (r & -> & Hm). apply migrates_cons_inv in Hm. rewrite H2 in Hm.
  destruct Hm as (a2 & r2 & Hc2 & Hm). apply copies_nil_inv in Hc2 as [-> ->].
  destruct Hm as (r' & -> & Hm). apply migrates_cons_inv in Hm. rewrite H3 in Hm.
  destruct Hm as (a3 & r3 & Hc3 & Hm).
  apply copies_statement_unbound in Hc3 as [-> ->]. destruct Hm as [-> ->]. auto.
Qed.

(** What the sessions of a finished run hold, pending or committed: the
    statements the loops sent, or nothing. *)
Lemma migrate_db_sent :
  (Forall (fun ss => s_pending ss ++ s_committed ss = [])
          (sessions (migrate_db w db_in db_out init_state).2) /\
   (length (sessions (migrate_db w db_in db_out init_state).2) < 2)%nat) \/
  (exists added res,
     migrates w db_in None tables added res /\
     (forall e, res = Raise e -> (migrate_db w db_in db_out init_state).1 = Raise e) /\
     Forall (fun ss => s_pending ss ++ s_committed ss = [] \/
                       s_pending ss ++ s_committed ss = added)
            (sessions (migrate_db w db_in db_out init_state).2)).
Proof.
  destruct (migrate_db_run w db_in db_out init_state eq_refl)
    as [[_ [-> | ->]] | (added & res & Hmig & Hend)].
  - left. split; [constructor | simpl; lia].
  - left. split; [constructor; [reflexivity | constructor] | simpl; lia].
  - right. exists added, res. split; [exact Hmig|].
    destruct (is_ok res && pg_commit w db_out added) eqn:E.
    + destruct Hend as [_ ->]. apply andb_true_iff in E as [Hok _]. split.
      * intros e ->. discriminate Hok.
      * constructor; [right; reflexivity|].
        constructor; [left; reflexivity | constructor].
    + destruct Hend as (_ & He & ->). split; [exact He|].
      constructor; [right; simpl; apply app_nil_r|].
      constructor; [left; reflexivity | constructor].
Qed.

End StatementRows.

(** C10. While [statement] is copied the row sent to the destination is
    the stale [new_row], never the fetched row: when [address] has at
    least one row, every row inserted into the destination [statement]
    table is the redacted last row of [address]; and when [account] and
    [address] have no rows, the first row of [statement] raises the
    unbound-variable error and is not inserted. *)
Theorem statement_rows_stale (w : world) (db_in db_out : string) :
  let run := migrate_db w db_in db_out init_state in
  (forall address last_row ss x,
     pg_select w db_in "SELECT * FROM address" = Some address ->
     last address = Some last_row ->
     In ss (sessions run.2) ->
     In x (rows_into "statement" (s_pending ss ++ s_committed ss)) ->
     redact last_row [2] = Ok x) /\
  (forall row rows,
     pg_select w db_in "SELECT * FROM account" = Some [] ->
     pg_select w db_in "SELECT * FROM address" = Some [] ->
     pg_select w db_in "SELECT * FROM statement" = Some (row :: rows) ->
     length (sessions run.2) = 2%nat ->
     run.1 = Raise (UnboundLocalError "new_row") /\
     forall ss, In ss (sessions run.2) -> s_pending ss ++ s_committed ss = []).
Proof.
  intros run. subst run. split.
  - intros address last_row ss x Haddr Hlast Hss Hx.
    destruct (migrate_db_sent w db_in db_out) as [[Hnone _] | (added & res & Hm & _ & Hsent)].
    + rewrite Forall_forall in Hnone.
      rewrite (Hnone ss) in Hx by (apply list_elem_of_In, Hss). destruct Hx.
    + rewrite Forall_forall in Hsent.
      destruct (Hsent ss) as [Hs | Hs]; [apply list_elem_of_In, Hss | |];
        rewrite Hs in Hx; [destruct Hx|].
      pose proof (migrates_statement_rows w db_in added res address last_row Hm Haddr Hlast)
        as Hall.
      rewrite Forall_forall in Hall. apply Hall, list_elem_of_In, Hx.
  - intros row rows H1 H2 H3 Hlen.
    destruct (migrate_db_sent w db_in db_out) as [[_ Hlt] | (added & res & Hm & He & Hsent)];
      [lia|].
    destruct (migrates_unbound w db_in added res row rows Hm H1 H2 H3) as [-> ->].
    split; [apply He; reflexivity|].
    intros ss Hss. rewrite Forall_forall in Hsent.
    destruct (Hsent ss) as [Hs | Hs]; [apply list_elem_of_In, Hss | exact Hs..].
Qed.

Lemma statement_rows_stale_witness :
  (forall ss x,
     In ss (sessions (migrate_db world_fine "prod" "staging" init_state).2) ->
     In x (rows_into "statement" (s_pending ss ++ s_committed ss)) ->
     redact [VInt 7; VInt 42; VStr "123 Main St"] [2] = Ok x) /\
  (migrate_db world_statement_only "prod" "staging" init_state).1
    = Raise (UnboundLocalError "new_row").
Proof.
  split.
  - intros ss x.
    exact (proj1 (statement_rows_stale world_fine "prod" "staging")
             address_rows [VInt 7; VInt 42; VStr "123 Main St"] ss x eq_refl eq_refl).
  - exact (proj1 (proj2 (statement_rows_stale world_statement_only "prod" "staging")
                    [VInt 100; VInt 1; VStr "2019-01"] [] eq_refl eq_refl eq_refl eq_refl)).
Defined.

(** C2 does not hold of the code: the one row of [statement] is sent to
    the destination as the redacted row of [address], not as it was
    read. *)
Theorem statement_row_overwritten :
  let run := migrate_db world_fine "prod" "staging" init_state in
  pg_select world_fine "prod" "SELECT * FROM statement"
    = Some [[VInt 100; VInt 1; VStr "2019-01"]] /\
  run.1 = Ok tt /\
  map (fun ss => rows_into "statement" (s_committed ss)) (sessions run.2)
    = [[[VInt 7; VInt 42; VStr "REDACTED"]]; []].
Proof. vm_compute. repeat split. Qed.

(** * The tools *)

Section Tools.

Variable w : world.

Lemma call_process_inv (cmd : string) (s s' : state) (ok : bool) :
  call_process w cmd s = (Ok ok, s') ->
  exists cmds p,
    shlex_split w cmd = Some cmds /\
    popen_communicate w (spawned s) cmds = Some p /\
    ok = negb (bytes_truthy (err_stream p)) /\
    sessions s' = sessions s /\
    spawned s' = spawned s ++ [cmds] /\
    stdout s' = stdout s ++ (if ok then [] else [OutBytes (err_stream p)]).
Proof.
  rewrite call_process_run.
  destruct (shlex_split w cmd) as [cmds|] eqn:Hsplit; [|discriminate].
  destruct (popen_communicate w (spawned s) cmds) as [p|] eqn:Hp; [|discriminate].
  destruct (bytes_truthy (err_stream p)) eqn:E; intros [= <- <-];
    exists cmds, p; simpl; rewrite ?app_nil_r, ?E; repeat split; assumption.
Qed.

End Tools.

(** C9. [call_process] returns [True] if and only if the child wrote
    nothing to its error stream, whatever its exit status: a child that
    ends with a non-zero status and an empty error stream is reported as
    [True], a child that ends with status zero after writing to its error
    stream as [False]. *)
Theorem call_process_true_iff_silent (w : world) (cmd : string) (s : state)
    (cmds : list string) (p : completed) :
  shlex_split w cmd = Some cmds ->
  popen_communicate w (spawned s) cmds = Some p ->
  ((call_process w cmd s).1 = Ok true <-> err_stream p = []) /\
  ((call_process w cmd s).1 = Ok false <-> err_stream p <> []) /\
  (returncode p <> 0 -> err_stream p = [] -> (call_process w cmd s).1 = Ok true) /\
  (returncode p = 0 -> err_stream p <> [] -> (call_process w cmd s).1 = Ok false).
Proof.
  intros Hsplit Hrun. rewrite call_process_run, Hsplit, Hrun.
  destruct (err_stream p) as [|b err]; simpl.
  - repeat split; try reflexivity; try discriminate; intros; congruence.
  - repeat split; try reflexivity; try discriminate; intros; congruence.
Qed.

Lemma call_process_true_iff_silent_witness :
  (call_process world_odd_tools "createdb staging" init_state).1 = Ok true /\
  (call_process world_odd_tools "pg_dump prod" init_state).1 = Ok false.
Proof.
  split.
  - apply (call_process_true_iff_silent world_odd_tools "createdb staging" init_state
             ["createdb"; "staging"] (quiet 1) eq_refl eq_refl).
    + simpl. lia.
    + reflexivity.
  - apply (call_process_true_iff_silent world_odd_tools "pg_dump prod" init_state
             ["pg_dump"; "prod"] (noisy 0) eq_refl eq_refl).
    + reflexivity.
    + discriminate.
Defined.



(** * Further properties of [redact] *)

Section RedactMore.

Implicit Types (r row : list value) (P Q : list Z) (p : Z) (i k : nat).

Lemma py_index_Some_iff len p i :
  py_index len p = Some i <->
  (i < len)%nat /\ (p = Z.of_nat i \/ p = Z.of_nat i - Z.of_nat len).
Proof.
  split.
  - intros H. pose proof (py_index_lt _ _ _ H) as Hlt. split; [exact Hlt|].
    destruct (Z_lt_le_dec p 0) as [Hneg|Hpos].
    + destruct (Z_lt_le_dec p (- Z.of_nat len)) as [Hlow|Hlow].
      * rewrite (proj2 (py_index_None len p)) in H by lia. discriminate.
      * rewrite py_index_negative in H by lia. injection H as <-. right. lia.
    + destruct (Z_lt_le_dec p (Z.of_nat len)) as [Hup|Hup].
      * rewrite py_index_nonneg in H by lia. injection H as <-. left. lia.
      * rewrite (proj2 (py_index_None len p)) in H by lia. discriminate.
  - intros [Hlt [-> | ->]].
    + rewrite py_index_nonneg by lia. f_equal. lia.
    + rewrite py_index_negative by lia. f_equal. lia.
Qed.

Lemma hits_spec len P i :
  hits len P i = true <-> exists p, In p P /\ py_index len p = Some i.
Proof.
  unfold hits. rewrite existsb_exists. split; intros (p & Hp & H); exists p; split; auto.
  - destruct (py_index len p) as [k|]; [|discriminate].
    apply Nat.eqb_eq in H. congruence.
  - rewrite H. apply Nat.eqb_refl.
Qed.

(** Two runs of the loop that reach the same indices write the same
    row. *)
Lemma redact_loop_ext row P Q r1 r2 :
  redact_loop row P = Ok r1 -> redact_loop row Q = Ok r2 ->
  (forall i, hits (length row) P i = hits (length row) Q i) ->
  r1 = r2.
Proof.
  intros H1 H2 Hh. apply list_eq. intros i.
  destruct (Nat.lt_ge_cases i (length row)) as [Hi|Hi].
  - rewrite (redact_loop_lookup _ _ _ i H1 Hi), (redact_loop_lookup _ _ _ i H2 Hi), Hh.
    reflexivity.
  - rewrite !lookup_ge_None_2; [reflexivity | |].
    + rewrite (redact_loop_length _ _ _ H2). lia.
    + rewrite (redact_loop_length _ _ _ H1). lia.
Qed.

Lemma redact_loop_app P : forall row Q,
  redact_loop row (P ++ Q) =
  match redact_loop row P with
  | Ok r => redact_loop r Q
  | Raise e => Raise e
  end.
Proof.
  induction P as [|p P IH]; simpl; intros row Q; [reflexivity|].
  destruct (list_setitem row p REDACTED); [apply IH | reflexivity].
Qed.

End RedactMore.

(** X1. The result of [redact] depends on which positions are given, not
    on their order or on how often one is repeated. *)
Theorem redact_positions_as_set (row : sqlrow) (P Q : list Z) :
  (forall p, In p P <-> In p Q) ->
  redact row P = redact row Q.
Proof.
  intros Hsame. rewrite !redact_unfold.
  assert (Hrange : (exists r, redact_loop row P = Ok r) <->
                   (exists r, redact_loop row Q = Ok r)).
  { rewrite !redact_loop_Ok_iff. split; intros H p Hp; apply H, Hsame, Hp. }
  destruct (redact_loop row P) as [r1|e1] eqn:E1;
    destruct (redact_loop row Q) as [r2|e2] eqn:E2.
  - f_equal. apply (redact_loop_ext row P Q); [assumption..|].
    intros i. apply Bool.eq_true_iff_eq. rewrite !hits_spec.
    split; intros (p & Hp & H); exists p; split; auto; apply Hsame, Hp.
  - destruct (proj1 Hrange (ex_intro _ r1 eq_refl)) as [r Hr]. discriminate.
  - destruct (proj2 Hrange (ex_intro _ r2 eq_refl)) as [r Hr]. discriminate.
  - apply redact_loop_Raise in E1, E2. congruence.
Qed.

Lemma redact_positions_as_set_witness :
  redact [VInt 1; VStr "Alice Smith"; VStr "a@x.com"] [2; 1; 2]
  = redact [VInt 1; VStr "Alice Smith"; VStr "a@x.com"] [1; 2].
Proof.
  apply (redact_positions_as_set [VInt 1; VStr "Alice Smith"; VStr "a@x.com"] [2; 1; 2] [1; 2]).
  intros p. simpl. intuition.
Defined.

(** X2. Redacting the positions [P] followed by [Q] in one call is
    redacting [P] and then redacting [Q] in the result; when the first
    step raises, so does the whole. *)
Theorem redact_app (row : sqlrow) (P Q : list Z) :
  redact row (P ++ Q) = (redact row P ≫= fun r => redact r Q).
Proof.
  rewrite !redact_unfold, redact_loop_app.
  destruct (redact_loop row P) as [r|e]; simpl; [|reflexivity].
  symmetry. apply redact_unfold.
Qed.

(** X3. A position counted from the end redacts the same column as the
    index it names: with every position between -L and L-1, rewriting
    each negative [p] as [L + p] does not change the result. *)
Theorem redact_from_end (row : sqlrow) (P : list Z) :
  (forall p, In p P -> - Z.of_nat (length row) <= p < Z.of_nat (length row)) ->
  redact row (map (from_end (length row)) P) = redact row P.
Proof.
  intros Hr. rewrite !redact_unfold.
  assert (Hidx : forall p, In p P ->
            py_index (length row) (from_end (length row) p) = py_index (length row) p).
  { intros p Hp. specialize (Hr p Hp). unfold from_end.
    destruct (Z.ltb_spec p 0); [|reflexivity].
    rewrite py_index_nonneg, py_index_negative by lia. reflexivity. }
  destruct (proj2 (redact_loop_Ok_iff P row) Hr) as [r1 H1].
  destruct (proj2 (redact_loop_Ok_iff (map (from_end (length row)) P) row)) as [r2 H2].
  { intros q Hq. apply in_map_iff in Hq as (p & <- & Hp). specialize (Hr p Hp).
    unfold from_end. destruct (Z.ltb_spec p 0); lia. }
  rewrite H1, H2. f_equal. apply (redact_loop_ext row _ _ _ _ H2 H1).
  intros i. apply Bool.eq_true_iff_eq. rewrite !hits_spec. split.
  - intros (q & Hq & H). apply in_map_iff in Hq as (p & <- & Hp).
    exists p. split; [exact Hp|]. rewrite <- (Hidx p Hp). exact H.
  - intros (p & Hp & H). exists (from_end (length row) p).
    split; [apply in_map, Hp|]. rewrite (Hidx p Hp). exact H.
Qed.

Lemma redact_from_end_witness :
  redact [VInt 7; VInt 42; VStr "123 Main St"] [2; 0]
  = redact [VInt 7; VInt 42; VStr "123 Main St"] [-1; -3].
Proof.
  apply (redact_from_end [VInt 7; VInt 42; VStr "123 Main St"] [-1; -3]).
  intros p [<-|[<-|[]]]; simpl; lia.
Defined.

(** X4. On an empty row every position is out of range: [redact] raises
    [IndexError] as soon as one position is given. *)
Theorem redact_empty_row (P : list Z) :
  P <> [] -> redact [] P = Raise IndexError.
Proof.
  destruct P as [|p P]; [congruence|]. intros _.
  rewrite redact_unfold. cbn [redact_loop]. unfold list_setitem. cbn [length].
  rewrite (proj2 (py_index_None 0 p)) by (simpl; lia). reflexivity.
Qed.

Lemma redact_empty_row_witness : redact [] [0] = Raise IndexError.
Proof. apply (redact_empty_row [0]). discriminate. Defined.

(** X5. Whenever [redact] returns, for positions of either sign, the row
    has the length of the input, holds ['REDACTED'] at every index [i]
    named by a position ([i] itself or [i - L]), and the input value at
    every other index. *)
Theorem redact_any_sign (row new_row : sqlrow) (P : list Z) :
  redact row P = Ok new_row ->
  length new_row = length row /\
  forall i, (i < length row)%nat ->
    ((exists p, In p P /\ (p = Z.of_nat i \/ p = Z.of_nat i - Z.of_nat (length row))) ->
     new_row !! i = Some REDACTED) /\
    (~ (exists p, In p P /\ (p = Z.of_nat i \/ p = Z.of_nat i - Z.of_nat (length row))) ->
     new_row !! i = row !! i).
Proof.
  rewrite redact_unfold. intros H. split; [exact (redact_loop_length _ _ _ H)|].
  intros i Hi. rewrite (redact_loop_lookup _ _ _ i H Hi).
  pose proof (hits_spec (length row) P i) as Hh.
  destruct (hits (length row) P i).
  - split; [reflexivity|]. intros Hn. exfalso. apply Hn.
    destruct (proj1 Hh eq_refl) as (p & Hp & Hidx).
    apply py_index_Some_iff in Hidx as [_ Hor]. eauto.
  - split; [|reflexivity]. intros (p & Hp & Hor).
    assert (true = true -> False); [|tauto]. intros _.
    assert (false = true); [|discriminate]. apply Hh. exists p. split; [exact Hp|].
    apply py_index_Some_iff. auto.
Qed.

Lemma redact_any_sign_witness :
  length [VInt 7; VInt 42; REDACTED] = 3%nat /\
  forall i, (i < 3)%nat ->
    ((exists p, In p [-1] /\ (p = Z.of_nat i \/ p = Z.of_nat i - 3)) ->
     [VInt 7; VInt 42; REDACTED] !! i = Some REDACTED) /\
    (~ (exists p, In p [-1] /\ (p = Z.of_nat i \/ p = Z.of_nat i - 3)) ->
     [VInt 7; VInt 42; REDACTED] !! i = [VInt 7; VInt 42; VStr "123 Main St"] !! i).
Proof.
  exact (redact_any_sign [VInt 7; VInt 42; VStr "123 Main St"] [VInt 7; VInt 42; REDACTED]
           [-1] eq_refl).
Defined.



(** * Further properties of the tools and the connections *)



(** X8. [connect_to_psql] opens the session on the database named by its
    first argument whatever keywords are passed: when the server accepts,
    a fresh session on [db_name] is added after the sessions that exist,
    which stay as they are, and its handle is returned; when the server
    refuses, the call raises and nothing has changed. *)
Theorem connect_to_psql_effects (w : world) (db_name : string)
    (kwargs : list (string * string)) (s : state) :
  match (connect_to_psql w db_name kwargs s).1 with
  | Ok c =>
      c = length (sessions s) /\
      sessions (connect_to_psql w db_name kwargs s).2
        = sessions s ++ [new_session db_name] /\
      stdout (connect_to_psql w db_name kwargs s).2 = stdout s /\
      spawned (connect_to_psql w db_name kwargs s).2 = spawned s
  | Raise e => e = DatabaseError /\ (connect_to_psql w db_name kwargs s).2 = s
  end.
Proof.
  unfold connect_to_psql. rewrite run_bind. unfold psycopg2_connect.
  match goal with |- context [pg_connect w ?p] => destruct (pg_connect w p) end;
    simpl; auto.
Qed.

Lemma connect_to_psql_effects_witness :
  sessions (connect_to_psql world_fine "staging" [("database", "prod"); ("host", "db1")]
              init_state).2 = [new_session "staging"].
Proof.
  exact (proj1 (proj2 (connect_to_psql_effects world_fine "staging"
                         [("database", "prod"); ("host", "db1")] init_state))).
Defined.

(** * Further properties of [migrate_db] *)

Section WholeRun.

Variable w : world.
Variable db_in db_out : string.

Lemma call_process_raises (cmd : string) (s s' : state) (e : exn) :
  call_process w cmd s = (Raise e, s') ->
  s' = s /\ (e = ValueError \/ e = OSError).
Proof.
  rewrite call_process_run.
  destruct (shlex_split w cmd) as [cmds|]; [|intros [= <- <-]; auto].
  destruct (popen_communicate w (spawned s) cmds) as [p|]; [|intros [= <- <-]; auto].
  destruct (bytes_truthy (err_stream p)); discriminate.
Qed.

(** What is left of the script once the three tools have passed. *)
Lemma migrate_db_data (s : state) (k : Py unit) :
  sessions s = [] ->
  k = (staging_conn ← connect_to_psql w db_out [];
       staging_cursor ← cursor staging_conn;
       prod_conn ← connect_to_psql w db_in [];
       prod_cursor ← cursor prod_conn;
       for_each tables (migrate_table w prod_cursor staging_cursor) None;;
       commit w staging_conn;;
       close staging_conn;;
       close prod_conn) ->
  k s = (Raise DatabaseError, s) \/
  k s = (Raise DatabaseError, set_sessions [new_session db_out] s) \/
  exists added res,
    migrates w db_in None tables added res /\
    match res with
    | Raise e =>
        k s = (Raise e, set_sessions [add_pending added (new_session db_out);
                                      new_session db_in] s)
    | Ok _ =>
        k s =
        if pg_commit w db_out added
        then (Ok tt, set_sessions [committed_closed db_out added;
                                   closed_unused db_in] s)
        else (Raise DatabaseError,
              set_sessions [add_pending added (new_session db_out);
                            new_session db_in] s)
    end.
Proof.
  intros Hs ->. rewrite run_bind.
  destruct (connect_to_psql_run w db_out s) as (p1 & _ & Hc1).
  rewrite Hc1, Hs. simpl app. simpl length.
  destruct (pg_connect w p1); [|left; reflexivity].
  change (cursor ?c ≫= ?f) with (f c). cbv beta. rewrite run_bind.
  destruct (connect_to_psql_run w db_in (set_sessions [new_session db_out] s))
    as (p2 & _ & Hc2).
  rewrite Hc2. simpl sessions. simpl app. simpl length. rewrite set_sessions_twice.
  destruct (pg_connect w p2); [|right; left; reflexivity].
  change (cursor ?c ≫= ?f) with (f c). cbv beta. rewrite run_bind.
  destruct (tables_loop w tables None
              (set_sessions [new_session db_out; new_session db_in] s)
              (new_session db_out) (new_session db_in))
    as (added & Hstate & Hmig); [reflexivity..|].
  destruct (for_each tables (migrate_table w 1%nat 0%nat) None
              (set_sessions [new_session db_out; new_session db_in] s))
    as [[new_row|e] s4]; simpl in Hstate, Hmig; subst s4; right; right.
  - exists added, (Ok new_row). split; [exact Hmig|].
    rewrite run_bind. unfold commit, with_session. simpl.
    destruct (pg_commit w db_out added); reflexivity.
  - exists added, (Raise e). split; [exact Hmig|]. reflexivity.
Qed.

(** The whole script, by the results of the three tools. *)
Lemma migrate_db_cases (r1 r2 r3 : result bool) (s1 s2 s3 : state) :
  call_process w ("createdb " +:+ db_out) init_state = (r1, s1) ->
  call_process w
    ("pg_dump --schema-only --format tar -f ../data/schemas.db " +:+ db_in) s1 = (r2, s2) ->
  call_process w
    ("pg_restore -d " +:+ db_out +:+ " --schema-only ../data/schemas.db") s2 = (r3, s3) ->
  match r1 with
  | Raise e => migrate_db w db_in db_out init_state = (Raise e, s1)
  | Ok false =>
      migrate_db w db_in db_out init_state =
      (Raise (SystemExit 1),
       {| stdout := stdout s1 ++
                    [OutStr ("Error creating database " +:+ db_out +:+ ", exiting...")];
          spawned := spawned s1; sessions := sessions s1 |})
  | Ok true =>
      match r2 with
      | Raise e => migrate_db w db_in db_out init_state = (Raise e, s2)
      | Ok false =>
          migrate_db w db_in db_out init_state =
          (Raise (SystemExit 1),
           {| stdout := stdout s2 ++
                        [OutStr ("Error dumping schemas for " +:+ db_in +:+ ", exiting...")];
              spawned := spawned s2; sessions := sessions s2 |})
      | Ok true =>
          match r3 with
          | Raise e => migrate_db w db_in db_out init_state = (Raise e, s3)
          | Ok false =>
              migrate_db w db_in db_out init_state =
              (Raise (SystemExit 1),
               {| stdout := stdout s3 ++
                            [OutStr ("Error loading schemas for " +:+ db_out +:+ ", exiting...")];
                  spawned := spawned s3; sessions := sessions s3 |})
          | Ok true =>
              exists k,
                migrate_db w db_in db_out init_state = k s3 /\
                k = (staging_conn ← connect_to_psql w db_out [];
                     staging_cursor ← cursor staging_conn;
                     prod_conn ← connect_to_psql w db_in [];
                     prod_cursor ← cursor prod_conn;
                     for_each tables (migrate_table w prod_cursor staging_cursor) None;;
                     commit w staging_conn;;
                     close staging_conn;;
                     close prod_conn)
          end
      end
  end.
Proof.
  intros E1 E2 E3. unfold migrate_db. rewrite run_bind, E1.
  destruct r1 as [[|]|e1]; [|reflexivity..].
  rewrite guard_run, run_bind, E2.
  destruct r2 as [[|]|e2]; [|reflexivity..].
  rewrite guard_run, run_bind, E3.
  destruct r3 as [[|]|e3]; [|reflexivity..].
  rewrite guard_run. eexists. split; reflexivity.
Qed.

Lemma tools_sessions (r1 r2 r3 : result bool) (s1 s2 s3 : state) :
  call_process w ("createdb " +:+ db_out) init_state = (r1, s1) ->
  call_process w
    ("pg_dump --schema-only --format tar -f ../data/schemas.db " +:+ db_in) s1 = (r2, s2) ->
  call_process w
    ("pg_restore -d " +:+ db_out +:+ " --schema-only ../data/schemas.db") s2 = (r3, s3) ->
  sessions s1 = [] /\ sessions s2 = [] /\ sessions s3 = [].
Proof.
  intros E1 E2 E3.
  pose proof (call_process_sessions w ("createdb " +:+ db_out) init_state) as H1.
  pose proof (call_process_sessions w
    ("pg_dump --schema-only --format tar -f ../data/schemas.db " +:+ db_in) s1) as H2.
  pose proof (call_process_sessions w
    ("pg_restore -d " +:+ db_out +:+ " --schema-only ../data/schemas.db") s2) as H3.
  rewrite E1 in H1. rewrite E2 in H2. rewrite E3 in H3. simpl in *.
  repeat split; congruence.
Qed.

End WholeRun.

Section ToolSteps.

Variable w : world.
Variable db_in db_out : string.

(** X9. When [createdb] fails, that is when [call_process] returns
    [False] for it, the run exits with status 1 after printing the
    'Error creating database' line: [createdb] is the only process
    spawned and no session is opened. *)
Theorem createdb_failure_exits :
  (call_process w ("createdb " +:+ db_out) init_state).1 = Ok false ->
  (migrate_db w db_in db_out init_state).1 = Raise (SystemExit 1) /\
  sessions (migrate_db w db_in db_out init_state).2 = [] /\
  (exists createdb_argv,
     shlex_split w ("createdb " +:+ db_out) = Some createdb_argv /\
     spawned (migrate_db w db_in db_out init_state).2 = [createdb_argv]) /\
  last (stdout (migrate_db w db_in db_out init_state).2)
    = Some (OutStr ("Error creating database " +:+ db_out +:+ ", exiting...")).
Proof.
  destruct (call_process w ("createdb " +:+ db_out) init_state) as [r1 s1] eqn:E1.
  destruct (call_process w
    ("pg_dump --schema-only --format tar -f ../data/schemas.db " +:+ db_in) s1)
    as [r2 s2] eqn:E2.
  destruct (call_process w
    ("pg_restore -d " +:+ db_out +:+ " --schema-only ../data/schemas.db") s2)
    as [r3 s3] eqn:E3.
  simpl. intros ->.
  rewrite (migrate_db_cases w db_in db_out _ _ _ _ _ _ E1 E2 E3). simpl.
  apply call_process_inv in E1 as (argv1 & p1 & Hsp1 & _ & _ & Hse1 & Hspawn1 & _).
  simpl in Hse1, Hspawn1.
  split; [reflexivity|]. split; [exact Hse1|]. split; [eauto|]. apply last_snoc.
Qed.

(** X10. When the schema import fails, that is when [call_process]
    returns [False] for [pg_restore] after the two tools before it passed,
    the run exits with status 1 after printing the 'Error loading
    schemas' line: three processes were spawned and no session is
    opened. *)
Theorem schema_import_failure_exits :
  let created := call_process w ("createdb " +:+ db_out) init_state in
  let dumped :=
    call_process w
      ("pg_dump --schema-only --format tar -f ../data/schemas.db " +:+ db_in)
      created.2 in
  let restored :=
    call_process w
      ("pg_restore -d " +:+ db_out +:+ " --schema-only ../data/schemas.db")
      dumped.2 in
  created.1 = Ok true -> dumped.1 = Ok true -> restored.1 = Ok false ->
  (migrate_db w db_in db_out init_state).1 = Raise (SystemExit 1) /\
  sessions (migrate_db w db_in db_out init_state).2 = [] /\
  length (spawned (migrate_db w db_in db_out init_state).2) = 3%nat /\
  last (stdout (migrate_db w db_in db_out init_state).2)
    = Some (OutStr ("Error loading schemas for " +:+ db_out +:+ ", exiting...")).
Proof.
  destruct (call_process w ("createdb " +:+ db_out) init_state) as [r1 s1] eqn:E1.
  simpl.
  destruct (call_process w
    ("pg_dump --schema-only --format tar -f ../data/schemas.db " +:+ db_in) s1)
    as [r2 s2] eqn:E2.
  simpl.
  destruct (call_process w
    ("pg_restore -d " +:+ db_out +:+ " --schema-only ../data/schemas.db") s2)
    as [r3 s3] eqn:E3.
  simpl. intros -> -> ->.
  rewrite (migrate_db_cases w db_in db_out _ _ _ _ _ _ E1 E2 E3). simpl.
  destruct (tools_sessions w db_in db_out _ _ _ _ _ _ E1 E2 E3) as (_ & _ & Hs3).
  apply call_process_inv in E1 as (argv1 & p1 & _ & _ & _ & _ & Hspawn1 & _).
  apply call_process_inv in E2 as (argv2 & p2 & _ & _ & _ & _ & Hspawn2 & _).
  apply call_process_inv in E3 as (argv3 & p3 & _ & _ & _ & _ & Hspawn3 & _).
  simpl in Hspawn1.
  split; [reflexivity|]. split; [exact Hs3|]. split; [|apply last_snoc].
  rewrite Hspawn3, Hspawn2, Hspawn1. reflexivity.
Qed.

(** X11. A session is opened only after all three tools returned [True]:
    in a run that ends with any session, the three results were [True],
    exactly three processes were spawned, and nothing was printed. *)
Theorem sessions_after_all_tools :
  let created := call_process w ("createdb " +:+ db_out) init_state in
  let dumped :=
    call_process w
      ("pg_dump --schema-only --format tar -f ../data/schemas.db " +:+ db_in)
      created.2 in
  let restored :=
    call_process w
      ("pg_restore -d " +:+ db_out +:+ " --schema-only ../data/schemas.db")
      dumped.2 in
  sessions (migrate_db w db_in db_out init_state).2 <> [] ->
  created.1 = Ok true /\ dumped.1 = Ok true /\ restored.1 = Ok true /\
  stdout (migrate_db w db_in db_out init_state).2 = [] /\
  length (spawned (migrate_db w db_in db_out init_state).2) = 3%nat.
Proof.
  destruct (call_process w ("createdb " +:+ db_out) init_state) as [r1 s1] eqn:E1.
  simpl.
  destruct (call_process w
    ("pg_dump --schema-only --format tar -f ../data/schemas.db " +:+ db_in) s1)
    as [r2 s2] eqn:E2.
  simpl.
  destruct (call_process w
    ("pg_restore -d " +:+ db_out +:+ " --schema-only ../data/schemas.db") s2)
    as [r3 s3] eqn:E3.
  simpl.
  pose proof (migrate_db_cases w db_in db_out _ _ _ _ _ _ E1 E2 E3) as Hcases.
  destruct (tools_sessions w db_in db_out _ _ _ _ _ _ E1 E2 E3) as (Hs1 & Hs2 & Hs3).
  destruct r1 as [[|]|e1]; [|rewrite Hcases; simpl; congruence..].
  destruct r2 as [[|]|e2]; [|rewrite Hcases; simpl; congruence..].
  destruct r3 as [[|]|e3]; [|rewrite Hcases; simpl; congruence..].
  destruct Hcases as (k & -> & Hk). intros _.
  apply call_process_inv in E1 as (argv1 & p1 & _ & _ & _ & _ & Hspawn1 & Hout1).
  apply call_process_inv in E2 as (argv2 & p2 & _ & _ & _ & _ & Hspawn2 & Hout2).
  apply call_process_inv in E3 as (argv3 & p3 & _ & _ & _ & _ & Hspawn3 & Hout3).
  simpl in Hspawn1, Hout1. rewrite app_nil_r in Hout2, Hout3.
  assert (Hframe : stdout (k s3).2 = stdout s3 /\ spawned (k s3).2 = spawned s3).
  { destruct (migrate_db_data w db_in db_out s3 k Hs3 Hk)
      as [-> | [-> | (added & res & _ & Hend)]]; [auto..|].
    destruct res; [destruct (pg_commit w db_out added)|]; rewrite Hend; auto. }
  destruct Hframe as [-> ->].
  repeat split; [congruence|]. rewrite Hspawn3, Hspawn2, Hspawn1. reflexivity.
Qed.

End ToolSteps.

Lemma createdb_failure_exits_witness :
  (migrate_db world_createdb_fails "prod" "staging" init_state).1 = Raise (SystemExit 1) /\
  sessions (migrate_db world_createdb_fails "prod" "staging" init_state).2 = [].
Proof.
  pose proof (createdb_failure_exits world_createdb_fails "prod" "staging" eq_refl)
    as (H1 & H2 & _).
  split; assumption.
Defined.

Lemma schema_import_failure_exits_witness :
  (migrate_db world_restore_fails "prod" "staging" init_state).1 = Raise (SystemExit 1) /\
  length (spawned (migrate_db world_restore_fails "prod" "staging" init_state).2) = 3%nat.
Proof.
  pose proof (schema_import_failure_exits world_restore_fails "prod" "staging"
                eq_refl eq_refl eq_refl) as (H1 & _ & H3 & _).
  split; assumption.
Defined.

Lemma sessions_after_all_tools_witness :
  stdout (migrate_db world_rejecting "prod" "staging" init_state).2 = [] /\
  length (spawned (migrate_db world_rejecting "prod" "staging" init_state).2) = 3%nat.
Proof.
  assert (H : sessions (migrate_db world_rejecting "prod" "staging" init_state).2 <> [])
    by (vm_compute; discriminate).
  pose proof (sessions_after_all_tools world_rejecting "prod" "staging" H)
    as (_ & _ & _ & H4 & H5).
  split; assumption.
Defined.

Section LoopMore.

Variable w : world.
Variable db_in : string.

Lemma redact_single (row r : sqlrow) (k : nat) :
  redact row [Z.of_nat k] = Ok r ->
  (k < length row)%nat /\ r = <[k := REDACTED]> row.
Proof.
  rewrite redact_unfold. simpl.
  destruct (list_setitem row (Z.of_nat k) REDACTED) as [r'|] eqn:E; [|discriminate].
  intros [= <-]. apply list_setitem_Ok in E as (k' & Hk & ->).
  apply py_index_Some_iff in Hk as [Hlt [Hk | Hk]]; [|lia].
  apply Nat2Z.inj in Hk. subst k'. auto.
Qed.

Lemma deidentify_errors (db : string) (new_row : option sqlrow) (row : sqlrow) (e : exn) :
  deidentify db new_row row = Raise e -> e = IndexError.
Proof.
  unfold deidentify.
  destruct (String.eqb db "account"); destruct (String.eqb db "address");
    repeat match goal with
    | |- context [redact ?r ?c] =>
        let E := fresh "E" in
        destruct (redact r c) eqn:E;
        [| rewrite redact_unfold in E; apply redact_loop_Raise in E; subst ]
    end; simpl; unfold mret, result_ret; congruence.
Qed.

Lemma copies_errors (db : string) (new_row : option sqlrow) (rows : list sqlrow)
    (added : list stmt) (e : exn) :
  copies db new_row rows added (Raise e) ->
  e = DatabaseError \/ e = IndexError \/ e = UnboundLocalError "new_row".
Proof.
  remember (Raise e) as res eqn:Hres.
  induction 1 as [| | ? ? ? ? Hd | |]; try discriminate; auto.
  - injection Hres as <-. apply deidentify_errors in Hd. auto.
  - injection Hres as <-. auto.
  - injection Hres as <-. auto.
Qed.

Lemma migrates_errors (new_row : option sqlrow) (dbs : list string)
    (added : list stmt) (e : exn) :
  migrates w db_in new_row dbs added (Raise e) ->
  e = DatabaseError \/ e = IndexError \/ e = UnboundLocalError "new_row".
Proof.
  remember (Raise e) as res eqn:Hres.
  induction 1 as [| | ? ? ? ? ? ? _ Hc | ]; try discriminate; auto.
  - injection Hres as <-. auto.
  - injection Hres as <-. exact (copies_errors _ _ _ _ _ Hc).
Qed.

(** Every statement the loops send is the insert built in line 136 for a
    table of the list. *)
Lemma copies_inserts (db : string) (new_row : option sqlrow) (rows : list sqlrow)
    (added : list stmt) (res : result (option sqlrow)) :
  copies db new_row rows added res ->
  Forall (fun st => exists nr, st = insert_stmt db nr) added.
Proof. induction 1; constructor; eauto. Qed.

Lemma migrates_inserts (new_row : option sqlrow) (dbs : list string)
    (added : list stmt) (res : result (option sqlrow)) :
  migrates w db_in new_row dbs added res ->
  Forall (fun st => exists db nr, In db dbs /\ st = insert_stmt db nr) added.
Proof.
  induction 1 as [| | ? db dbs ? ? ? _ Hc | ? db dbs ? ? ? ? ? _ Hc _ IH ].
  - constructor.
  - constructor.
  - eapply Forall_impl; [exact (copies_inserts _ _ _ _ _ Hc)|].
    intros st [nr ->]. exists db, nr. split; [left; reflexivity | reflexivity].
  - apply Forall_app. split.
    + eapply Forall_impl; [exact (copies_inserts _ _ _ _ _ Hc)|].
      intros st [nr ->]. exists db, nr. split; [left; reflexivity | reflexivity].
    + eapply Forall_impl; [exact IH|].
      intros st (db' & nr & Hin & ->). exists db', nr. split; [right; exact Hin | reflexivity].
Qed.

(** What holds of every row a copy of table [t] sends holds of every row
    sent for [t] by the loop over the tables. *)
Lemma migrates_rows_into (t : string) (Q : sqlrow -> Prop) :
  In t tables ->
  (forall nv rows a r, copies t nv rows a r -> Forall Q (map sql_params a)) ->
  forall new_row dbs added res,
    (forall db, In db dbs -> In db tables) ->
    migrates w db_in new_row dbs added res ->
    Forall Q (rows_into t added).
Proof.
  intros Ht HQ.
  assert (Hone : forall db nv rows a r, In db tables -> copies db nv rows a r ->
                                        Forall Q (rows_into t a)).
  { intros db nv rows a r Hdb Hc. destruct (String.eqb_spec db t) as [->|Hne].
    - rewrite (rows_into_same _ _ _ _ _ Hc). exact (HQ _ _ _ _ Hc).
    - rewrite (rows_into_other db t _ _ _ _ Hdb Ht Hne Hc). constructor. }
  intros new_row dbs added res Hdbs.
  induction 1 as [| | ? db dbs ? ? ? _ Hc | ? db dbs ? ? ? ? ? _ Hc _ IH ].
  - constructor.
  - constructor.
  - apply (Hone db _ _ _ _ (Hdbs db (or_introl eq_refl)) Hc).
  - rewrite rows_into_app. apply Forall_app. split.
    + apply (Hone db _ _ _ _ (Hdbs db (or_introl eq_refl)) Hc).
    + apply IH. intros db' Hdb'. apply Hdbs. right. exact Hdb'.
Qed.

(** A run of the loops over the three tables that returns, table by
    table. *)
Lemma migrates_ok_split (added : list stmt) (new_row : option sqlrow) :
  migrates w db_in None tables added (Ok new_row) ->
  exists acc addr stm a1 a2 a3 nv1 nv2,
    pg_select w db_in ("SELECT * FROM " +:+ "account") = Some acc /\
    pg_select w db_in ("SELECT * FROM " +:+ "address") = Some addr /\
    pg_select w db_in ("SELECT * FROM " +:+ "statement") = Some stm /\
    copies "account" None acc a1 (Ok nv1) /\
    copies "address" nv1 addr a2 (Ok nv2) /\
    copies "statement" nv2 stm a3 (Ok new_row) /\
    added = a1 ++ a2 ++ a3.
Proof.
  intros Hm. unfold tables in Hm. apply migrates_cons_inv in Hm.
  destruct (pg_select w db_in ("SELECT * FROM " +:+ "account")) as [acc|];
    [|destruct Hm; discriminate].
  destruct Hm as (a1 & [nv1|e1] & Hc1 & Hm); [|destruct Hm; discriminate].
  destruct Hm as (r1 & -> & Hm). apply migrates_cons_inv in Hm.
  destruct (pg_select w db_in ("SELECT * FROM " +:+ "address")) as [addr|];
    [|destruct Hm; discriminate].
  destruct Hm as (a2 & [nv2|e2] & Hc2 & Hm); [|destruct Hm; discriminate].
  destruct Hm as (r2 & -> & Hm). apply migrates_cons_inv in Hm.
  destruct (pg_select w db_in ("SELECT * FROM " +:+ "statement")) as [stm|];
    [|destruct Hm; discriminate].
  destruct Hm as (a3 & [nv3|e3] & Hc3 & Hm); [|destruct Hm; discriminate].
  destruct Hm as (r3 & -> & Hm). apply migrates_nil_inv in Hm as [-> [= ->]].
  exists acc, addr, stm, a1, a2, a3, nv1, nv2. rewrite app_nil_r. auto 10.
Qed.

(** The copies of [account] and [address] send each row read, in order,
    with the one column replaced. *)
Lemma copies_account (new_row new_row' : option sqlrow) (rows : list sqlrow)
    (added : list stmt) :
  copies "account" new_row rows added (Ok new_row') ->
  Forall2 (fun src st => (1 < length src)%nat /\
                         st = insert_stmt "account" (<[1%nat := REDACTED]> src))
          rows added.
Proof.
  remember (Ok new_row') as res eqn:Hres.
  induction 1 as [| ? row ? nr ? ? Hd _ IH | | |]; try discriminate; constructor; auto.
  rewrite deidentify_account in Hd.
  destruct (redact row [1]) as [r|] eqn:E; [|discriminate]. injection Hd as ->.
  apply (redact_single row nr 1) in E as [Hlt ->]. auto.
Qed.

Lemma copies_address (new_row new_row' : option sqlrow) (rows : list sqlrow)
    (added : list stmt) :
  copies "address" new_row rows added (Ok new_row') ->
  Forall2 (fun src st => (2 < length src)%nat /\
                         st = insert_stmt "address" (<[2%nat := REDACTED]> src))
          rows added.
Proof.
  remember (Ok new_row') as res eqn:Hres.
  induction 1 as [| ? row ? nr ? ? Hd _ IH | | |]; try discriminate; constructor; auto.
  rewrite deidentify_address in Hd.
  destruct (redact row [2]) as [r|] eqn:E; [|discriminate]. injection Hd as ->.
  apply (redact_single row nr 2) in E as [Hlt ->]. auto.
Qed.

(** In any copy of [account] or [address], also one that stops early,
    the rows sent carry the sentinel in the redacted column. *)
Lemma copies_account_sentinel (new_row : option sqlrow) (rows : list sqlrow)
    (added : list stmt) (res : result (option sqlrow)) :
  copies "account" new_row rows added res ->
  Forall (fun x => x !! 1%nat = Some REDACTED) (map sql_params added).
Proof.
  induction 1 as [| ? row ? nr ? ? Hd _ IH | | |]; simpl; constructor; auto.
  rewrite deidentify_account in Hd.
  destruct (redact row [1]) as [r|] eqn:E; [|discriminate]. injection Hd as ->.
  apply (redact_single row nr 1) in E as [Hlt ->].
  apply list_lookup_insert_eq, Hlt.
Qed.

Lemma copies_address_sentinel (new_row : option sqlrow) (rows : list sqlrow)
    (added : list stmt) (res : result (option sqlrow)) :
  copies "address" new_row rows added res ->
  Forall (fun x => x !! 2%nat = Some REDACTED) (map sql_params added).
Proof.
  induction 1 as [| ? row ? nr ? ? Hd _ IH | | |]; simpl; constructor; auto.
  rewrite deidentify_address in Hd.
  destruct (redact row [2]) as [r|] eqn:E; [|discriminate]. injection Hd as ->.
  apply (redact_single row nr 2) in E as [Hlt ->].
  apply list_lookup_insert_eq, Hlt.
Qed.

End LoopMore.

(** X12. [migrate_db] raises only these exceptions: before any session
    is open, [SystemExit(1)], a [ValueError] or [OSError] of a tool, or the
    error of the refused staging connection; with the staging session
    alone, the error of the refused source connection; with both
    sessions, a database error, the [IndexError] of [redact], or the
    [UnboundLocalError] of [new_row]. *)
Theorem migrate_db_raises_only (w : world) (db_in db_out : string) (e : exn) :
  (migrate_db w db_in db_out init_state).1 = Raise e ->
  (sessions (migrate_db w db_in db_out init_state).2 = [] /\
   (e = SystemExit 1 \/ e = ValueError \/ e = OSError \/ e = DatabaseError)) \/
  (sessions (migrate_db w db_in db_out init_state).2 = [new_session db_out] /\
   e = DatabaseError) \/
  (length (sessions (migrate_db w db_in db_out init_state).2) = 2%nat /\
   (e = DatabaseError \/ e = IndexError \/ e = UnboundLocalError "new_row")).
Proof.
  destruct (call_process w ("createdb " +:+ db_out) init_state) as [r1 s1] eqn:E1.
  destruct (call_process w
    ("pg_dump --schema-only --format tar -f ../data/schemas.db " +:+ db_in) s1)
    as [r2 s2] eqn:E2.
  destruct (call_process w
    ("pg_restore -d " +:+ db_out +:+ " --schema-only ../data/schemas.db") s2)
    as [r3 s3] eqn:E3.
  pose proof (migrate_db_cases w db_in db_out _ _ _ _ _ _ E1 E2 E3) as Hcases.
  destruct (tools_sessions w db_in db_out _ _ _ _ _ _ E1 E2 E3) as (Hs1 & Hs2 & Hs3).
  destruct r1 as [[|]|e1];
    [| rewrite Hcases; simpl; intros [= <-]; left; auto
     | rewrite Hcases; simpl; intros [= <-]; left;
       apply call_process_raises in E1 as [_ [-> | ->]]; auto ].
  destruct r2 as [[|]|e2];
    [| rewrite Hcases; simpl; intros [= <-]; left; auto
     | rewrite Hcases; simpl; intros [= <-]; left;
       apply call_process_raises in E2 as [_ [-> | ->]]; auto ].
  destruct r3 as [[|]|e3];
    [| rewrite Hcases; simpl; intros [= <-]; left; auto
     | rewrite Hcases; simpl; intros [= <-]; left;
       apply call_process_raises in E3 as [_ [-> | ->]]; auto ].
  destruct Hcases as (k & -> & Hk).
  destruct (migrate_db_data w db_in db_out s3 k Hs3 Hk)
    as [-> | [-> | (added & res & Hmig & Hend)]]; simpl.
  - intros [= <-]. left. auto.
  - intros [= <-]. right. left. auto.
  - intros Hr. right. right. destruct res as [nv|e'].
    + rewrite Hend in Hr |- *.
      destruct (pg_commit w db_out added); simpl in Hr |- *; [discriminate Hr|].
      injection Hr as <-. auto.
    + rewrite Hend in Hr |- *. simpl in Hr |- *. injection Hr as <-.
      split; [reflexivity | exact (migrates_errors w db_in _ _ _ _ Hmig)].
Qed.

Lemma migrate_db_raises_only_witness :
  length (sessions (migrate_db world_narrow "prod" "staging" init_state).2) = 2%nat /\
  (IndexError = DatabaseError \/ IndexError = IndexError \/
   IndexError = UnboundLocalError "new_row").
Proof.
  destruct (migrate_db_raises_only world_narrow "prod" "staging" IndexError eq_refl)
    as [[_ [H | [H | [H | H]]]] | [[_ H] | H]]; try discriminate H.
  exact H.
Defined.

(** X13. The source database is never written: whenever the source
    session exists at the end of a run, it is the session on [db_in], it
    holds no statement, pending or committed, and it was never
    committed. *)
Theorem source_never_written (w : world) (db_in db_out : string) (ss : session) :
  sessions (migrate_db w db_in db_out init_state).2 !! 1%nat = Some ss ->
  s_database ss = db_in /\ sent ss = [] /\ s_commits ss = 0%nat.
Proof.
  destruct (migrate_db_run w db_in db_out init_state eq_refl)
    as [[_ [-> | ->]] | (added & res & _ & Hend)]; try discriminate.
  destruct (is_ok res && pg_commit w db_out added).
  - destruct Hend as [_ ->]. intros [= <-]. auto.
  - destruct Hend as (_ & _ & ->). intros [= <-]. auto.
Qed.

Lemma source_never_written_witness :
  s_database (closed_unused "prod") = "prod" /\ sent (closed_unused "prod") = [] /\
  s_commits (closed_unused "prod") = 0%nat.
Proof.
  exact (source_never_written world_fine "prod" "staging" (closed_unused "prod") eq_refl).
Defined.

(** X14. No unredacted name or street address is ever sent: in every
    run, also one that fails, each row sent for [account], pending or
    committed, carries ['REDACTED'] in column 1 and each row sent for
    [address] carries it in column 2. *)
Theorem sent_rows_carry_sentinel (w : world) (db_in db_out : string)
    (ss : session) (x : sqlrow) :
  In ss (sessions (migrate_db w db_in db_out init_state).2) ->
  (In x (rows_into "account" (sent ss)) -> x !! 1%nat = Some REDACTED) /\
  (In x (rows_into "address" (sent ss)) -> x !! 2%nat = Some REDACTED).
Proof.
  intros Hss. unfold sent.
  destruct (migrate_db_sent w db_in db_out) as [[Hnone _] | (added & res & Hm & _ & Hsent)].
  - rewrite Forall_forall in Hnone.
    rewrite (Hnone ss) by (apply list_elem_of_In, Hss). split; intros [].
  - rewrite Forall_forall in Hsent.
    destruct (Hsent ss) as [-> | ->]; [apply list_elem_of_In, Hss | split; intros [] |].
    assert (Hin : forall t, In t ["account"; "address"; "statement"] -> In t tables)
      by (intros t Ht; exact Ht).
    split; intros Hx.
    + pose proof (migrates_rows_into w db_in "account" _ (Hin _ (or_introl eq_refl))
                    copies_account_sentinel None tables added res (fun _ H => H) Hm) as Hall.
      rewrite Forall_forall in Hall. apply Hall, list_elem_of_In, Hx.
    + pose proof (migrates_rows_into w db_in "address" _
                    (Hin _ (or_intror (or_introl eq_refl)))
                    copies_address_sentinel None tables added res (fun _ H => H) Hm) as Hall.
      rewrite Forall_forall in Hall. apply Hall, list_elem_of_In, Hx.
Qed.

Lemma sent_rows_carry_sentinel_witness :
  [VInt 1; VStr "REDACTED"; VStr "a@x.com"] !! 1%nat = Some REDACTED.
Proof.
  refine (proj1 (sent_rows_carry_sentinel world_rejecting "prod" "staging"
                   (add_pending [insert_stmt "account" [VInt 1; VStr "REDACTED"; VStr "a@x.com"];
                                 insert_stmt "address" [VInt 7; VInt 42; VStr "REDACTED"]]
                      (new_session "staging"))
                   [VInt 1; VStr "REDACTED"; VStr "a@x.com"] _) _).
  - vm_compute. left. reflexivity.
  - vm_compute. left. reflexivity.
Defined.

Section CommittedRows.

Variable w : world.
Variable db_in db_out : string.

Lemma Forall2_params (R : sqlrow -> sqlrow -> Prop) (db : string)
    (rows : list sqlrow) (added : list stmt) :
  Forall2 (fun src st => exists dst, R src dst /\ st = insert_stmt db dst) rows added ->
  Forall2 R rows (map sql_params added).
Proof.
  induction 1 as [| src st rows added (dst & HR & ->) _ IH]; simpl; constructor; auto.
Qed.

Lemma count_char_app (c : ascii) (a b : string) :
  count_char c (a +:+ b) = (count_char c a + count_char c b)%nat.
Proof.
  induction a as [|c' a IH]; simpl; [reflexivity|].
  destruct (Ascii.eqb c' c); simpl; rewrite IH; reflexivity.
Qed.

Lemma count_placeholders (n : nat) :
  count_char "%" (str_join ", " (replicate n "%s")) = n.
Proof.
  induction n as [|n IH]; [reflexivity|].
  destruct n as [|m]; [reflexivity|].
  change (replicate (S (S m)) "%s") with ("%s" :: replicate (S m) "%s").
  change (str_join ", " ("%s" :: replicate (S m) "%s"))
    with ("%s" +:+ ", " +:+ str_join ", " (replicate (S m) "%s")).
  rewrite !count_char_app, IH. reflexivity.
Qed.

Lemma insert_sql_placeholders (db : string) (n : nat) :
  In db tables -> count_char "%" (insert_sql db n) = n.
Proof.
  intros Hdb. unfold insert_sql. rewrite !count_char_app, count_placeholders.
  destruct Hdb as [<-|[<-|[<-|[]]]]; simpl; lia.
Qed.

Lemma copies_account_last (new_row new_row' : option sqlrow) (rows : list sqlrow)
    (added : list stmt) (last_row : sqlrow) :
  copies "account" new_row rows added (Ok new_row') ->
  last rows = Some last_row ->
  exists nr, redact last_row [1] = Ok nr /\ new_row' = Some nr.
Proof.
  remember (Ok new_row') as res eqn:Hres. intros Hc. revert last_row.
  induction Hc as [| nv row rows nr added res Hd Hc IH | | |]; intros last_row Hl;
    try discriminate.
  destruct rows as [|row' rows'].
  - simpl in Hl. injection Hl as <-.
    apply copies_nil_inv in Hc as [_ Hnil]. rewrite Hnil in Hres.
    injection Hres as <-. exists nr. split; [|reflexivity].
    rewrite deidentify_account in Hd.
    destruct (redact row [1]); congruence.
  - apply IH; [exact Hres|]. exact Hl.
Qed.

(** With [address] empty, whatever the loops sent for [statement] is the
    redacted last row of [account]. *)
Lemma migrates_statement_rows_account (added : list stmt) (res : result (option sqlrow))
    (account : list sqlrow) (last_row : sqlrow) :
  migrates w db_in None tables added res ->
  pg_select w db_in ("SELECT * FROM " +:+ "account") = Some account ->
  pg_select w db_in ("SELECT * FROM " +:+ "address") = Some [] ->
  last account = Some last_row ->
  Forall (fun x => redact last_row [1] = Ok x) (rows_into "statement" added).
Proof.
  intros Hm Hacc Haddr Hlast. unfold tables in Hm.
  assert (Hin : forall x, In x ["account"; "address"; "statement"] -> In x tables)
    by (intros x Hx; exact Hx).
  assert (Hother : forall nv rows a r, copies "account" nv rows a r ->
                                       rows_into "statement" a = []).
  { intros nv rows a r. apply rows_into_other; [apply Hin; simpl; tauto ..|discriminate]. }
  apply migrates_cons_inv in Hm. rewrite Hacc in Hm.
  destruct Hm as (a1 & [nv1|e1] & Hc1 & Hm);
    [|destruct Hm as [-> _]; rewrite (Hother _ _ _ _ Hc1); constructor].
  destruct Hm as (r1 & -> & Hm). apply migrates_cons_inv in Hm. rewrite Haddr in Hm.
  rewrite rows_into_app, (Hother _ _ _ _ Hc1), app_nil_l.
  destruct Hm as (a2 & r2 & Hc2 & Hm). apply copies_nil_inv in Hc2 as [-> ->].
  destruct Hm as (r2 & -> & Hm). apply migrates_cons_inv in Hm. rewrite app_nil_l.
  destruct (copies_account_last _ _ _ _ _ Hc1 Hlast) as (nr & Hnr & ->).
  assert (Hst : forall rows a r, copies "statement" (Some nr) rows a r ->
                  Forall (fun x => redact last_row [1] = Ok x) (rows_into "statement" a)).
  { intros rows a r Hc. rewrite (rows_into_same _ _ _ _ _ Hc).
    apply copies_statement in Hc. rewrite Forall_map.
    eapply Forall_impl; [exact Hc|]. intros st [= <-]. exact Hnr. }
  destruct (pg_select w db_in ("SELECT * FROM " +:+ "statement")) as [stm|];
    [|destruct Hm as [-> _]; constructor].
  destruct Hm as (a3 & [nv3|e3] & Hc3 & Hm);
    [|destruct Hm as [-> _]; exact (Hst _ _ _ Hc3)].
  destruct Hm as (r3 & -> & Hm). apply migrates_nil_inv in Hm as [-> _].
  rewrite app_nil_r. exact (Hst _ _ _ Hc3).
Qed.

(** X15. In a run that returns, the rows committed for [account] are the
    rows read from it, in order, each with at least two columns and with
    column 1, and no other, replaced by ['REDACTED']; the same holds of
    [address] with column 2. *)
Theorem account_and_address_rows_copied :
  (migrate_db w db_in db_out init_state).1 = Ok tt ->
  exists staging account address,
    sessions (migrate_db w db_in db_out init_state).2 !! 0%nat = Some staging /\
    pg_select w db_in "SELECT * FROM account" = Some account /\
    pg_select w db_in "SELECT * FROM address" = Some address /\
    Forall2 (fun src dst => (1 < length src)%nat /\ dst = <[1%nat := REDACTED]> src)
            account (rows_into "account" (s_committed staging)) /\
    Forall2 (fun src dst => (2 < length src)%nat /\ dst = <[2%nat := REDACTED]> src)
            address (rows_into "address" (s_committed staging)).
Proof.
  intros Hok. pose proof (migrate_db_ends w db_in db_out) as H. rewrite Hok in H.
  destruct H as (added & new_row & Hm & ->).
  apply migrates_ok_split in Hm
    as (acc & addr & stm & a1 & a2 & a3 & nv1 & nv2 & E1 & E2 & E3 & Hc1 & Hc2 & Hc3 & ->).
  exists (committed_closed db_out (a1 ++ a2 ++ a3)), acc, addr.
  split; [reflexivity|]. split; [exact E1|]. split; [exact E2|].
  assert (Hin : forall x, In x ["account"; "address"; "statement"] -> In x tables)
    by (intros x Hx; exact Hx).
  simpl s_committed. rewrite !rows_into_app. split.
  - rewrite (rows_into_same _ _ _ _ _ Hc1).
    rewrite (rows_into_other "address" "account" _ _ _ _) by
      (first [eassumption | discriminate | apply Hin; simpl; tauto]).
    rewrite (rows_into_other "statement" "account" _ _ _ _) by
      (first [eassumption | discriminate | apply Hin; simpl; tauto]).
    rewrite !app_nil_r. apply (Forall2_params _ "account").
    eapply Forall2_impl; [exact (copies_account _ _ _ _ Hc1)|].
    intros src st [Hlt ->]. eauto.
  - rewrite (rows_into_same _ _ _ _ _ Hc2).
    rewrite (rows_into_other "account" "address" _ _ _ _) by
      (first [eassumption | discriminate | apply Hin; simpl; tauto]).
    rewrite (rows_into_other "statement" "address" _ _ _ _) by
      (first [eassumption | discriminate | apply Hin; simpl; tauto]).
    rewrite app_nil_r. apply (Forall2_params _ "address").
    eapply Forall2_impl; [exact (copies_address _ _ _ _ Hc2)|].
    intros src st [Hlt ->]. eauto.
Qed.

(** X16. In a run that returns, the committed statements are in the
    order of the table list: first the inserts into [account], then those
    into [address], then those into [statement], and each group has one
    insert for each row read from its table. *)
Theorem committed_in_table_order :
  (migrate_db w db_in db_out init_state).1 = Ok tt ->
  exists staging a1 a2 a3 account address statement,
    sessions (migrate_db w db_in db_out init_state).2 !! 0%nat = Some staging /\
    s_committed staging = a1 ++ a2 ++ a3 /\
    pg_select w db_in "SELECT * FROM account" = Some account /\
    pg_select w db_in "SELECT * FROM address" = Some address /\
    pg_select w db_in "SELECT * FROM statement" = Some statement /\
    length a1 = length account /\ length a2 = length address /\
    length a3 = length statement /\
    Forall (fun st => exists nr, st = insert_stmt "account" nr) a1 /\
    Forall (fun st => exists nr, st = insert_stmt "address" nr) a2 /\
    Forall (fun st => exists nr, st = insert_stmt "statement" nr) a3.
Proof.
  intros Hok. pose proof (migrate_db_ends w db_in db_out) as H. rewrite Hok in H.
  destruct H as (added & new_row & Hm & ->).
  apply migrates_ok_split in Hm
    as (acc & addr & stm & a1 & a2 & a3 & nv1 & nv2 & E1 & E2 & E3 & Hc1 & Hc2 & Hc3 & ->).
  exists (committed_closed db_out (a1 ++ a2 ++ a3)), a1, a2, a3, acc, addr, stm.
  split; [reflexivity|]. split; [reflexivity|].
  split; [exact E1|]. split; [exact E2|]. split; [exact E3|].
  split; [exact (copies_count _ _ _ _ _ Hc1)|].
  split; [exact (copies_count _ _ _ _ _ Hc2)|].
  split; [exact (copies_count _ _ _ _ _ Hc3)|].
  split; [exact (copies_inserts _ _ _ _ _ Hc1)|].
  split; [exact (copies_inserts _ _ _ _ _ Hc2) | exact (copies_inserts _ _ _ _ _ Hc3)].
Qed.

(** X17. When [address] has no row and [account] has one, the stale
    [new_row] is that of [account]: every row inserted into the
    destination [statement] table is the last row of [account] with
    column 1 redacted. *)
Theorem statement_rows_from_account (account : list sqlrow) (last_row : sqlrow)
    (ss : session) (x : sqlrow) :
  pg_select w db_in "SELECT * FROM account" = Some account ->
  pg_select w db_in "SELECT * FROM address" = Some [] ->
  last account = Some last_row ->
  In ss (sessions (migrate_db w db_in db_out init_state).2) ->
  In x (rows_into "statement" (sent ss)) ->
  redact last_row [1] = Ok x.
Proof.
  intros Hacc Haddr Hlast Hss Hx. unfold sent in Hx.
  destruct (migrate_db_sent w db_in db_out) as [[Hnone _] | (added & res & Hm & _ & Hsent)].
  - rewrite Forall_forall in Hnone.
    rewrite (Hnone ss) in Hx by (apply list_elem_of_In, Hss). destruct Hx.
  - rewrite Forall_forall in Hsent.
    destruct (Hsent ss) as [Hs | Hs]; [apply list_elem_of_In, Hss | |];
      rewrite Hs in Hx; [destruct Hx|].
    pose proof (migrates_statement_rows_account added res account last_row
                  Hm Hacc Haddr Hlast) as Hall.
    rewrite Forall_forall in Hall. apply Hall, list_elem_of_In, Hx.
Qed.

(** X18. Every statement a run sends, pending or committed, has exactly
    as many [%s] placeholders in its text as it has bound parameters. *)
Theorem placeholders_match_params (ss : session) (st : stmt) :
  In ss (sessions (migrate_db w db_in db_out init_state).2) ->
  In st (sent ss) ->
  count_char "%" (sql_text st) = length (sql_params st).
Proof.
  intros Hss Hst. unfold sent in Hst.
  destruct (migrate_db_sent w db_in db_out) as [[Hnone _] | (added & res & Hm & _ & Hsent)].
  - rewrite Forall_forall in Hnone.
    rewrite (Hnone ss) in Hst by (apply list_elem_of_In, Hss). destruct Hst.
  - rewrite Forall_forall in Hsent.
    destruct (Hsent ss) as [Hs | Hs]; [apply list_elem_of_In, Hss | |];
      rewrite Hs in Hst; [destruct Hst|].
    pose proof (migrates_inserts w db_in _ _ _ _ Hm) as Hall.
    rewrite Forall_forall in Hall.
    destruct (Hall st) as (db & nr & Hdb & ->); [apply list_elem_of_In, Hst|].
    apply insert_sql_placeholders, Hdb.
Qed.

(** X19. When the first query, on [account], is refused, a run that had
    opened both sessions raises the database error and has sent nothing
    to the destination. *)
Theorem read_failure_sends_nothing :
  pg_select w db_in "SELECT * FROM account" = None ->
  length (sessions (migrate_db w db_in db_out init_state).2) = 2%nat ->
  (migrate_db w db_in db_out init_state).1 = Raise DatabaseError /\
  forall ss, In ss (sessions (migrate_db w db_in db_out init_state).2) -> sent ss = [].
Proof.
  intros Hsel Hlen.
  destruct (migrate_db_sent w db_in db_out) as [[_ Hlt] | (added & res & Hm & He & Hsent)];
    [lia|].
  unfold tables in Hm. apply migrates_cons_inv in Hm.
  change ("SELECT * FROM " +:+ "account") with "SELECT * FROM account" in Hm.
  rewrite Hsel in Hm. destruct Hm as [-> ->].
  split; [apply He; reflexivity|].
  intros ss Hss. rewrite Forall_forall in Hsent. unfold sent.
  destruct (Hsent ss) as [Hs | Hs]; [apply list_elem_of_In, Hss | exact Hs..].
Qed.

End CommittedRows.

Lemma account_and_address_rows_copied_witness :
  exists staging account address,
    sessions (migrate_db world_fine "prod" "staging" init_state).2 !! 0%nat = Some staging /\
    pg_select world_fine "prod" "SELECT * FROM account" = Some account /\
    pg_select world_fine "prod" "SELECT * FROM address" = Some address /\
    Forall2 (fun src dst => (1 < length src)%nat /\ dst = <[1%nat := REDACTED]> src)
            account (rows_into "account" (s_committed staging)) /\
    Forall2 (fun src dst => (2 < length src)%nat /\ dst = <[2%nat := REDACTED]> src)
            address (rows_into "address" (s_committed staging)).
Proof. exact (account_and_address_rows_copied world_fine "prod" "staging" eq_refl). Defined.

Lemma committed_in_table_order_witness :
  exists staging a1 a2 a3 account address statement,
    sessions (migrate_db world_fine "prod" "staging" init_state).2 !! 0%nat = Some staging /\
    s_committed staging = a1 ++ a2 ++ a3 /\
    pg_select world_fine "prod" "SELECT * FROM account" = Some account /\
    pg_select world_fine "prod" "SELECT * FROM address" = Some address /\
    pg_select world_fine "prod" "SELECT * FROM statement" = Some statement /\
    length a1 = length account /\ length a2 = length address /\
    length a3 = length statement /\
    Forall (fun st => exists nr, st = insert_stmt "account" nr) a1 /\
    Forall (fun st => exists nr, st = insert_stmt "address" nr) a2 /\
    Forall (fun st => exists nr, st = insert_stmt "statement" nr) a3.
Proof. exact (committed_in_table_order world_fine "prod" "staging" eq_refl). Defined.

Lemma statement_rows_from_account_witness :
  redact [VInt 1; VStr "Alice Smith"; VStr "a@x.com"] [1]
  = Ok [VInt 1; VStr "REDACTED"; VStr "a@x.com"].
Proof.
  refine (statement_rows_from_account world_no_address "prod" "staging"
            account_rows [VInt 1; VStr "Alice Smith"; VStr "a@x.com"]
            (committed_closed "staging"
               [insert_stmt "account" [VInt 1; VStr "REDACTED"; VStr "a@x.com"];
                insert_stmt "statement" [VInt 1; VStr "REDACTED"; VStr "a@x.com"]])
            [VInt 1; VStr "REDACTED"; VStr "a@x.com"]
            eq_refl eq_refl eq_refl _ _).
  - vm_compute. left. reflexivity.
  - vm_compute. left. reflexivity.
Defined.

Lemma placeholders_match_params_witness :
  count_char "%" "INSERT INTO address VALUES (%s, %s, %s)" = 3%nat.
Proof.
  refine (placeholders_match_params world_rejecting "prod" "staging"
            (add_pending [insert_stmt "account" [VInt 1; VStr "REDACTED"; VStr "a@x.com"];
                          insert_stmt "address" [VInt 7; VInt 42; VStr "REDACTED"]]
               (new_session "staging"))
            (insert_stmt "address" [VInt 7; VInt 42; VStr "REDACTED"]) _ _).
  - vm_compute. left. reflexivity.
  - vm_compute. right. left. reflexivity.
Defined.

Lemma read_failure_sends_nothing_witness :
  (migrate_db world_read_fails "prod" "staging" init_state).1 = Raise DatabaseError /\
  forall ss, In ss (sessions (migrate_db world_read_fails "prod" "staging" init_state).2) ->
             sent ss = [].
Proof. exact (read_failure_sends_nothing world_read_fails "prod" "staging" eq_refl eq_refl). Defined.

Section Success.

Variable w : world.
Variable db_in db_out : string.

Hypothesis splits : forall cmd, is_Some (shlex_split w cmd).
Hypothesis silent :
  forall earlier argv, exists p,
    popen_communicate w earlier argv = Some p /\ err_stream p = [].
Hypothesis connects : forall p, pg_connect w p = true.
Hypothesis inserts : forall pending st, pg_insert w db_out pending st = true.
Hypothesis commits : forall pending, pg_commit w db_out pending = true.

Lemma call_process_passes (cmd : string) (s : state) :
  exists s', call_process w cmd s = (Ok true, s') /\ sessions s' = sessions s.
Proof.
  rewrite call_process_run. destruct (splits cmd) as [argv ->].
  destruct (silent (spawned s) argv) as (p & -> & ->). simpl. eauto.
Qed.

Lemma rows_loop_passes (db : string) (rows : list sqlrow) :
  forall (new_row : option sqlrow) (s : state) (st pr : session),
  sessions s = [st; pr] -> s_closed st = false -> s_database st = db_out ->
  (forall row nv, In row rows -> nv = new_row \/ is_Some nv ->
                  exists nr, deidentify db nv row = Ok (Some nr)) ->
  exists added new_row',
    for_each rows (migrate_row w 0%nat db) new_row s
      = (Ok new_row', set_sessions [add_pending added st; pr] s) /\
    (is_Some new_row \/ rows <> [] -> is_Some new_row').
Proof.
  induction rows as [|row rows IH]; intros new_row s st pr Hs Hc Hdb Hrows.
  - exists [], new_row. simpl. rewrite add_pending_nil, (set_sessions_same s _ Hs).
    split; [reflexivity|]. intros [H|H]; [exact H | congruence].
  - rewrite for_each_cons, (migrate_row_run w db new_row row s st pr Hs Hc).
    destruct (Hrows row new_row (or_introl eq_refl) (or_introl eq_refl)) as [nr ->].
    rewrite Hdb, inserts.
    assert (Hrest : forall row' nv, In row' rows -> nv = Some nr \/ is_Some nv ->
                      exists nr', deidentify db nv row' = Ok (Some nr')).
    { intros row' nv Hin [-> | Hnv]; apply Hrows; simpl; eauto. }
    destruct (IH (Some nr) (set_sessions [add_pending [insert_stmt db nr] st; pr] s)
                (add_pending [insert_stmt db nr] st) pr eq_refl Hc Hdb Hrest)
      as (added & new_row' & -> & Hsome).
    exists (insert_stmt db nr :: added), new_row'.
    rewrite add_pending_app. split; [reflexivity|].
    intros _. apply Hsome. left. eauto.
Qed.

Lemma migrate_table_passes (db : string) (rows : list sqlrow)
    (new_row : option sqlrow) (s : state) (st pr : session) :
  sessions s = [st; pr] -> s_closed st = false -> s_closed pr = false ->
  s_database st = db_out ->
  pg_select w (s_database pr) ("SELECT * FROM " +:+ db) = Some rows ->
  (forall row nv, In row rows -> nv = new_row \/ is_Some nv ->
                  exists nr, deidentify db nv row = Ok (Some nr)) ->
  exists added new_row',
    migrate_table w 1%nat 0%nat new_row db s
      = (Ok new_row', set_sessions [add_pending added st; pr] s) /\
    (is_Some new_row \/ rows <> [] -> is_Some new_row').
Proof.
  intros Hs Hst Hpr Hdb Hsel Hrows.
  rewrite (migrate_table_run w new_row db s st pr Hs Hpr), Hsel.
  apply rows_loop_passes; assumption.
Qed.

(** X20. The run returns when nothing around it fails and the tables fit
    the two hard-coded columns: every command can be split, every tool
    ends with an empty error stream, the server accepts both
    connections, every insert and the commit, the three queries return
    rows, every row of [account] has at least two columns and every row
    of [address] at least three, and [statement] has rows only if
    [account] or [address] has one. *)
Theorem migrate_db_returns (account address statement : list sqlrow) :
  pg_select w db_in "SELECT * FROM account" = Some account ->
  pg_select w db_in "SELECT * FROM address" = Some address ->
  pg_select w db_in "SELECT * FROM statement" = Some statement ->
  Forall (fun row => (1 < length row)%nat) account ->
  Forall (fun row => (2 < length row)%nat) address ->
  (account <> [] \/ address <> [] \/ statement = []) ->
  (migrate_db w db_in db_out init_state).1 = Ok tt.
Proof.
  intros Hacc Haddr Hstm Hwide1 Hwide2 Hbound.
  destruct (call_process_passes ("createdb " +:+ db_out) init_state) as (s1 & E1 & Hs1).
  destruct (call_process_passes
    ("pg_dump --schema-only --format tar -f ../data/schemas.db " +:+ db_in) s1)
    as (s2 & E2 & Hs2).
  destruct (call_process_passes
    ("pg_restore -d " +:+ db_out +:+ " --schema-only ../data/schemas.db") s2)
    as (s3 & E3 & Hs3).
  destruct (migrate_db_cases w db_in db_out _ _ _ _ _ _ E1 E2 E3) as (k & -> & ->).
  assert (Hnone : sessions s3 = []) by (rewrite Hs3, Hs2, Hs1; reflexivity).
  rewrite run_bind.
  destruct (connect_to_psql_run w db_out s3) as (p1 & _ & ->).
  rewrite connects, Hnone. simpl app. simpl length.
  change (cursor ?c ≫= ?f) with (f c). cbv beta. rewrite run_bind.
  destruct (connect_to_psql_run w db_in (set_sessions [new_session db_out] s3))
    as (p2 & _ & ->).
  rewrite connects. simpl sessions. simpl app. simpl length. rewrite set_sessions_twice.
  change (cursor ?c ≫= ?f) with (f c). cbv beta. rewrite run_bind.
  unfold tables. rewrite for_each_cons.
  destruct (migrate_table_passes "account" account None
              (set_sessions [new_session db_out; new_session db_in] s3)
              (new_session db_out) (new_session db_in))
    as (a1 & nv1 & -> & Hnv1); [reflexivity.. | exact Hacc | |].
  { intros row nv Hin _. rewrite deidentify_account.
    rewrite Forall_forall in Hwide1.
    specialize (Hwide1 row (proj2 (list_elem_of_In _ _) Hin)).
    destruct (proj2 (redact_loop_Ok_iff [1] row)) as [r Hr].
    - intros p [<-|[]]. lia.
    - rewrite redact_unfold, Hr. eauto. }
  rewrite for_each_cons, set_sessions_twice.
  destruct (migrate_table_passes "address" address nv1
              (set_sessions [add_pending a1 (new_session db_out); new_session db_in] s3)
              (add_pending a1 (new_session db_out)) (new_session db_in))
    as (a2 & nv2 & -> & Hnv2); [reflexivity.. | exact Haddr | |].
  { intros row nv Hin _. rewrite deidentify_address.
    rewrite Forall_forall in Hwide2.
    specialize (Hwide2 row (proj2 (list_elem_of_In _ _) Hin)).
    destruct (proj2 (redact_loop_Ok_iff [2] row)) as [r Hr].
    - intros p [<-|[]]. lia.
    - rewrite redact_unfold, Hr. eauto. }
  rewrite for_each_cons, set_sessions_twice, add_pending_app.
  destruct (migrate_table_passes "statement" statement nv2
              (set_sessions [add_pending (a1 ++ a2) (new_session db_out);
                             new_session db_in] s3)
              (add_pending (a1 ++ a2) (new_session db_out)) (new_session db_in))
    as (a3 & nv3 & -> & _); [reflexivity.. | exact Hstm | |].
  { intros row nv Hin Hnv. rewrite deidentify_statement.
    assert (Hsome : is_Some nv).
    { destruct Hnv as [-> | Hnv]; [|exact Hnv].
      destruct Hbound as [Hne | [Hne | ->]]; [| |destruct Hin].
      - apply Hnv2. left. apply Hnv1. right. exact Hne.
      - apply Hnv2. right. exact Hne. }
    destruct Hsome as [nr ->]. eauto. }
  cbn [for_each]. rewrite set_sessions_twice, add_pending_app.
  unfold mret, Py_ret, py_ret. cbv beta iota.
  rewrite run_bind. unfold commit, with_session. simpl.
  rewrite commits. reflexivity.
Qed.

End Success.

Lemma migrate_db_returns_witness :
  (migrate_db world_fine "prod" "staging" init_state).1 = Ok tt.
Proof.
  refine (migrate_db_returns world_fine "prod" "staging" _ _ _ _ _
            account_rows address_rows statement_rows eq_refl eq_refl eq_refl _ _ _).
  - intros cmd. eexists. reflexivity.
  - intros earlier argv. eexists. split; reflexivity.
  - reflexivity.
  - reflexivity.
  - reflexivity.
  - repeat constructor.
  - repeat constructor.
  - left. discriminate.
Defined.
